(** * Sources, datasets and narratives of the nextstrain.org server

    A shallow embedding of [auspice/server/sources.js]: the class hierarchy of
    sources, the dataset and narrative handles they build, URL composition,
    enumeration of available resources and access control.

    Conventions of the embedding.
    - A JavaScript string is a [string]; every delimiter the module looks for
      ("_", ".json", ".md", ...) is ASCII, so the operations below act the same
      on code units and on bytes.
    - A call that may throw, or a promise that may reject, returns a [Result].
    - [async] methods additionally carry the lines written by [utils.warn].
    - The libraries the module calls but does not contain (node-fetch, the AWS
      S3 client, WHATWG [URL]) are described by a [World] of upstream answers
      and by symbolic URL values. *)

From Stdlib Require Import String Ascii List Bool Arith Lia.
Import ListNotations.
Local Open Scope list_scope.
Local Open Scope string_scope.

Set Implicit Arguments.

(** ** JavaScript string and array primitives used by the module *)

Module Js.

(** [s.startsWith(p)] *)
Definition startsWith (s p : string) : bool := String.prefix p s.

(** [strip_suffix suf s] is [Some p] exactly when [s = p ++ suf]: the match of
    the anchored regular expression [/suf$/] on [s], for a literal [suf]. *)
Fixpoint strip_suffix (suf s : string) : option string :=
  if String.eqb s suf then Some ""
  else match s with
       | EmptyString => None
       | String c s' =>
           match strip_suffix suf s' with
           | Some p => Some (String c p)
           | None => None
           end
       end.

(** [s.endsWith(suf)] *)
Definition endsWith (s suf : string) : bool :=
  match strip_suffix suf s with Some _ => true | None => false end.

(** [s.replace(/suf$/, rep)] for a literal suffix [suf] and a replacement
    without [$] patterns. *)
Definition replace_suffix (suf rep s : string) : string :=
  match strip_suffix suf s with
  | Some p => p ++ rep
  | None => s
  end.

(** [s.replace(/^_/, "")] *)
Definition strip_leading_underscore (s : string) : string :=
  match s with
  | String "_"%char s' => s'
  | _ => s
  end.

Fixpoint drop (n : nat) (s : string) : string :=
  match n, s with
  | O, _ => s
  | S n', String _ s' => drop n' s'
  | S _, EmptyString => EmptyString
  end.

(** [s.replace(pat, rep)] with a string pattern: only the first occurrence is
    replaced. *)
Fixpoint replace (pat rep s : string) : string :=
  if String.prefix pat s then rep ++ drop (String.length pat) s
  else match s with
       | EmptyString => EmptyString
       | String c s' => String c (replace pat rep s')
       end.

(** [s.split(sep)] for a one-character separator. *)
Fixpoint split (sep : ascii) (s : string) : list string :=
  match s with
  | EmptyString => [EmptyString]
  | String c s' =>
      if Ascii.eqb c sep then EmptyString :: split sep s'
      else match split sep s' with
           | h :: t => String c h :: t
           | [] => [String c EmptyString]
           end
  end.

(** [a.join(sep)], as ECMAScript runs it: the separator is added before every
    element but the first. *)
Fixpoint join_from (sep : string) (first : bool) (R : string) (a : list string) : string :=
  match a with
  | [] => R
  | x :: a' => join_from sep false ((if first then R else R ++ sep) ++ x) a'
  end.

Definition join (sep : string) (a : list string) : string :=
  join_from sep true "" a.

(** [a.includes(x)] on an array of strings. *)
Fixpoint includes (a : list string) (x : string) : bool :=
  match a with
  | [] => false
  | y :: a' => String.eqb y x || includes a' x
  end.

(** [Array.from(new Set(a))]: a [Set] keeps insertion order and ignores a
    value it already holds. *)
Definition Set_add (s : list string) (x : string) : list string :=
  if includes s x then s else (s ++ [x])%list.

Definition Array_from_Set (a : list string) : list string :=
  fold_left Set_add a [].

(** A template literal substitution [${v}] of a value that is a string or
    [undefined]. *)
Definition template (v : option string) : string :=
  match v with Some s => s | None => "undefined" end.

(** [!v] for a value that is a string or [undefined]. *)
Definition falsy (v : option string) : bool :=
  match v with
  | None => true
  | Some s => String.eqb s ""
  end.

End Js.

(** ** Errors and results *)

(** Modelled from the spec: the module [./exceptions], which declares
    [InvalidSourceImplementation] and [NoDatasetPathError], is not among the
    sources.  Following the spec, the first is the configuration error and the
    second the no-dataset-path error; each is a constructor, and the first
    carries the message given where it is thrown.  [JsError] is
    [new Error(msg)] or a [TypeError]; [UpstreamError] is a rejection coming
    from node-fetch or from the S3 client. *)
Inductive Error : Type :=
| InvalidSourceImplementation (msg : string)
| NoDatasetPathError
| JsError (msg : string)
| UpstreamError (msg : string).

Inductive Result (A : Type) : Type :=
| OK (a : A)
| Throw (e : Error).
Arguments OK {A} a.
Arguments Throw {A} e.

Definition bind {A B : Type} (r : Result A) (k : A -> Result B) : Result B :=
  match r with
  | OK a => k a
  | Throw e => Throw e
  end.

Declare Scope result_scope.
Delimit Scope result_scope with result.
Notation "x <- r ;; k" := (bind r (fun x => k))
  (at level 61, r at next level, right associativity) : result_scope.
Local Open Scope result_scope.

(** An [async] method: the lines passed to [utils.warn], and the settled
    promise. *)
Definition Async (A : Type) : Type := (list string * Result A)%type.

Definition resolve {A : Type} (a : A) : Async A := ([], OK a).
Definition reject {A : Type} (e : Error) : Async A := ([], Throw e).

(** Modelled from the spec: [utils.warn], of the module [./utils] that is not
    among the sources, logs its argument as a warning. *)
Definition warn (msg : string) : Async unit := ([msg], OK tt).

(** A synchronous getter evaluated inside an [async] body. *)
Definition lift {A : Type} (r : Result A) : Async A := ([], r).

Definition abind {A B : Type} (m : Async A) (k : A -> Async B) : Async B :=
  match m with
  | (log, OK a) => let (log', r) := k a in ((log ++ log')%list, r)
  | (log, Throw e) => (log, Throw e)
  end.

Declare Scope async_scope.
Delimit Scope async_scope with async.
Notation "x <~ m ;; k" := (abind m (fun x => k))
  (at level 61, m at next level, right associativity) : async_scope.
Local Open Scope async_scope.

(** ** The outside world *)

(** An entry of a GitHub contents listing. *)
Record GitHubFile : Type := mkFile {
  file_type : string;
  file_name : string
}.

(** What [fetch] resolves to: [response.ok] and the outcome of
    [response.json()]. *)
Record Response : Type := mkResponse {
  ok : bool;
  json : Result (list GitHubFile)
}.

Record S3Object : Type := mkObject {
  Key : string
}.

Record ListObjectsV2Output : Type := mkListOutput {
  Contents : list S3Object;
  IsTruncated : bool;
  NextContinuationToken : option nat
}.

(** A value [availableDatasets()] may return.  Every class but [CoreSource]
    returns an array of paths; [CoreSource] returns what it reads from a
    process-wide object, which may be anything: [JsOther] stands for a value
    that is neither an array of strings nor [undefined], with whether it is
    truthy and a description. *)
Inductive JsValue : Type :=
| JsArray (items : list string)
| JsUndefined
| JsOther (is_truthy : bool) (description : string).

(** Whether [v || w] is [v]; an array is truthy even when empty. *)
Definition truthy (v : JsValue) : bool :=
  match v with
  | JsArray _ => true
  | JsUndefined => false
  | JsOther is_truthy _ => is_truthy
  end.

(** The upstream services and the process-wide state, as the module sees
    them.
    - [fetch url] resolves to a response or rejects.
    - [bucket_objects b] is the whole content of bucket [b], in listing order,
      or the failure of the listing request.
    - [global_availableDatasets] is [None] while nothing has been assigned to
      [global.availableDatasets]; otherwise it gives, for a key [k], the
      value of [global.availableDatasets[k]], found on the object or
      inherited by it.  The code that assigns the global is not part of the
      module. *)
Record World : Type := mkWorld {
  fetch : string -> Result Response;
  bucket_objects : option string -> Result (list S3Object);
  global_availableDatasets : option (string -> JsValue)
}.

(** One request of the S3 client returns at most this many objects; the number
    is the one the comment in [S3Source._listObjects] gives. *)
Definition MaxKeys : nat := 1000.

(** [S3.listObjectsV2({Bucket, ContinuationToken}).promise()]: one page of the
    listing, starting where the token says. *)
Definition S3_listObjectsV2 (w : World) (Bucket : option string)
    (ContinuationToken : option nat) : Result ListObjectsV2Output :=
  objects <- bucket_objects w Bucket ;;
  let start := match ContinuationToken with Some n => n | None => 0%nat end in
  let rest := skipn start objects in
  let truncated := Nat.ltb MaxKeys (List.length rest) in
  OK {| Contents := firstn MaxKeys rest;
        IsTruncated := truncated;
        NextContinuationToken := if truncated then Some (start + MaxKeys)%nat else None |}.

(** A URL string, by the library call that built it: [new URL(input,
    base).toString()], or [S3.getSignedUrl(operation, {Bucket, Key})]. *)
Inductive Url : Type :=
| URL_toString (input base : string)
| S3_getSignedUrl (operation : string) (Bucket : option string) (Key : string).

(** [queryString.stringify({ref: branch})] for a branch name made of
    unreserved characters; a key whose value is [undefined] is left out. *)
Definition queryString_stringify_ref (branch : option string) : string :=
  match branch with
  | Some b => "ref=" ++ b
  | None => ""
  end.

(** ** Users *)

(** The current user as the module reads it: [user.groups] is an array of
    group names, or is missing. *)
Record User : Type := mkUser {
  groups : option (list string)
}.

(** ** Source classes *)

(** The body of a class written as
    [class X extends P { static get _name() {...}  get bucket() {...}
    static visibleToUser(user) {...} }], each member optional: the shape of
    the named group sources at the end of the module, and of any further
    source a deployment adds. *)
Record ClassBody : Type := mkBody {
  body_class_name : string;
  body__name : option string;
  body_bucket : option string;
  body_visibleToUser : option (option User -> Result bool)
}.

Inductive SourceClass : Type :=
| Source
| CoreSource
| CoreStagingSource
| CommunitySource
| S3Source
| PrivateS3Source
| PublicGroupSource
| PrivateGroupSource
| InrbDrcSource
| SeattleFluSource
| Subclass (parent : SourceClass) (body : ClassBody).

(** The [extends] clause of each class. *)
Definition superclass (c : SourceClass) : option SourceClass :=
  match c with
  | Source => None
  | CoreSource => Some Source
  | CoreStagingSource => Some CoreSource
  | CommunitySource => Some Source
  | S3Source => Some Source
  | PrivateS3Source => Some S3Source
  | PublicGroupSource => Some S3Source
  | PrivateGroupSource => Some PrivateS3Source
  | InrbDrcSource => Some PrivateGroupSource
  | SeattleFluSource => Some PublicGroupSource
  | Subclass parent _ => Some parent
  end.

(** The class followed by its ancestors, nearest first: the order in which a
    member is looked up. *)
Fixpoint prototype_chain (c : SourceClass) : list SourceClass :=
  c :: match c with
       | Source => []
       | CoreSource => [Source]
       | CoreStagingSource => [CoreSource; Source]
       | CommunitySource => [Source]
       | S3Source => [Source]
       | PrivateS3Source => [S3Source; Source]
       | PublicGroupSource => [S3Source; Source]
       | PrivateGroupSource => [PrivateS3Source; S3Source; Source]
       | InrbDrcSource => [PrivateGroupSource; PrivateS3Source; S3Source; Source]
       | SeattleFluSource => [PublicGroupSource; S3Source; Source]
       | Subclass parent _ => prototype_chain parent
       end.

(** Member lookup: the first class of the chain that declares the member. *)
Fixpoint lookup {A : Type} (own : SourceClass -> option A) (chain : list SourceClass)
    : option A :=
  match chain with
  | [] => None
  | c :: chain' =>
      match own c with
      | Some m => Some m
      | None => lookup own chain'
      end
  end.

Definition class_name (c : SourceClass) : string :=
  match c with
  | Source => "Source"
  | CoreSource => "CoreSource"
  | CoreStagingSource => "CoreStagingSource"
  | CommunitySource => "CommunitySource"
  | S3Source => "S3Source"
  | PrivateS3Source => "PrivateS3Source"
  | PublicGroupSource => "PublicGroupSource"
  | PrivateGroupSource => "PrivateGroupSource"
  | InrbDrcSource => "InrbDrcSource"
  | SeattleFluSource => "SeattleFluSource"
  | Subclass _ body => body_class_name body
  end.

(** A source instance: its class ([this.constructor]) and the two fields the
    [CommunitySource] constructor sets. *)
Record SourceObj : Type := mkSource {
  sconstructor : SourceClass;
  owner : option string;
  repoName : option string
}.

(** What calling a member that no class of the chain declares does. *)
Definition not_a_function {A : Type} (member : string) : Result A :=
  Throw (JsError ("TypeError: " ++ member ++ " is not a function")).

(** *** [static get _name()] and [get name()] *)

Definition own__name (c : SourceClass) : option (Result string) :=
  match c with
  | Source => Some (Throw (InvalidSourceImplementation "_name() must be implemented by subclasses"))
  | CoreSource => Some (OK "core")
  | CoreStagingSource => Some (OK "staging")
  | CommunitySource => Some (OK "community")
  | InrbDrcSource => Some (OK "inrb-drc")
  | SeattleFluSource => Some (OK "seattleflu")
  | Subclass _ body => option_map OK (body__name body)
  | _ => None
  end.

(** [C._name].  Every chain ends at [Source], which declares the getter, so
    the last case is never reached (lemma [lookup_declared_by_Source]). *)
Definition _name (c : SourceClass) : Result string :=
  match lookup own__name (prototype_chain c) with
  | Some r => r
  | None => not_a_function "_name"
  end.

Definition name (this : SourceObj) : Result string :=
  _name (sconstructor this).

(** *** [get bucket()] *)

Definition own_bucket (c : SourceClass) : option (SourceObj -> Result string) :=
  match c with
  | S3Source => Some (fun _ =>
      Throw (InvalidSourceImplementation "bucket() must be implemented by subclasses"))
  | PublicGroupSource => Some (fun this => n <- name this ;; OK ("nextstrain-" ++ n))
  | PrivateGroupSource => Some (fun this => n <- name this ;; OK ("nextstrain-" ++ n))
  | InrbDrcSource => Some (fun _ => OK "nextstrain-inrb")
  | Subclass _ body => option_map (fun b _ => OK b) (body_bucket body)
  | _ => None
  end.

(** [this.bucket]; [OK None] is [undefined], for a source without the
    getter. *)
Definition bucket (this : SourceObj) : Result (option string) :=
  match lookup own_bucket (prototype_chain (sconstructor this)) with
  | Some getter => b <- getter this ;; OK (Some b)
  | None => OK None
  end.

(** *** [get repo()] and [get branch()] *)

Definition own_repo (c : SourceClass) : option (SourceObj -> string) :=
  match c with
  | CoreSource => Some (fun _ => "nextstrain/narratives")
  | CoreStagingSource => Some (fun _ => "nextstrain/narratives")
  | CommunitySource => Some (fun this =>
      Js.template (owner this) ++ "/" ++ Js.template (repoName this))
  | _ => None
  end.

Definition repo (this : SourceObj) : option string :=
  option_map (fun getter => getter this)
    (lookup own_repo (prototype_chain (sconstructor this))).

Definition own_branch (c : SourceClass) : option string :=
  match c with
  | CoreSource => Some "master"
  | CoreStagingSource => Some "staging"
  | CommunitySource => Some "master"
  | _ => None
  end.

Definition branch (this : SourceObj) : option string :=
  lookup own_branch (prototype_chain (sconstructor this)).

(** *** [get baseUrl()] *)

Definition own_baseUrl (c : SourceClass) : option (SourceObj -> Result string) :=
  match c with
  | Source => Some (fun _ =>
      Throw (InvalidSourceImplementation "baseUrl() must be implemented by subclasses"))
  | CoreSource => Some (fun _ => OK "http://data.nextstrain.org/")
  | CoreStagingSource => Some (fun _ => OK "http://staging.nextstrain.org/")
  | CommunitySource => Some (fun this =>
      OK ("https://raw.githubusercontent.com/" ++ Js.template (repo this) ++ "/"
          ++ Js.template (branch this) ++ "/"))
  | S3Source => Some (fun this =>
      b <- bucket this ;; OK ("https://" ++ Js.template b ++ ".s3.amazonaws.com"))
  | _ => None
  end.

Definition baseUrl (this : SourceObj) : Result string :=
  match lookup own_baseUrl (prototype_chain (sconstructor this)) with
  | Some getter => getter this
  | None => not_a_function "baseUrl"
  end.

(** *** [static visibleToUser(user)] and [visibleToUser(user)] *)

(** The static method receives the class it was called on as [this]. *)
Definition own_visibleToUser (c : SourceClass)
    : option (SourceClass -> option User -> Result bool) :=
  match c with
  | Source => Some (fun _ _ => OK true)
  | PrivateS3Source => Some (fun _ _ =>
      Throw (InvalidSourceImplementation
        "visibleToUser() must be implemented explicitly by subclasses (not inherited from PrivateS3Source)"))
  | PrivateGroupSource => Some (fun this user =>
      match user with
      | None => OK false
      | Some u =>
          match groups u with
          | None => OK false
          | Some gs => n <- _name this ;; OK (Js.includes gs n)
          end
      end)
  | Subclass _ body => option_map (fun f _ user => f user) (body_visibleToUser body)
  | _ => None
  end.

Definition static_visibleToUser (c : SourceClass) (user : option User) : Result bool :=
  match lookup own_visibleToUser (prototype_chain c) with
  | Some method => method c user
  | None => not_a_function "visibleToUser"
  end.

(** The instance method; no class overrides it. *)
Definition visibleToUser (this : SourceObj) (user : option User) : Result bool :=
  static_visibleToUser (sconstructor this) user.

(** *** Constructors *)

(** [new C(owner, repoName)].  Only [CommunitySource] declares a constructor;
    a class below it inherits it, any other class ignores the arguments. *)
Definition own_constructor (c : SourceClass)
    : option (SourceClass -> option string -> option string -> Result SourceObj) :=
  match c with
  | Source => Some (fun this _ _ => OK (mkSource this None None))
  | CommunitySource => Some (fun this owner repoName =>
      if Js.falsy owner then
        Throw (JsError ("Cannot construct a " ++ class_name this ++ " without an owner"))
      else if Js.falsy repoName then
        Throw (JsError ("Cannot construct a " ++ class_name this ++ " without an repoName"))
      else OK (mkSource this owner repoName))
  | _ => None
  end.

Definition new (c : SourceClass) (owner repoName : option string) : Result SourceObj :=
  match lookup own_constructor (prototype_chain c) with
  | Some ctor => ctor c owner repoName
  | None => not_a_function "constructor"
  end.

(** ** Dataset handles *)

Inductive DatasetClass : Type :=
| Dataset
| CommunityDataset
| PrivateS3Dataset.

Record DatasetObj : Type := mkDataset {
  dconstructor : DatasetClass;
  dsource : SourceObj;
  dpathParts : list string
}.

(** [get baseParts()]: [CommunityDataset] overrides the getter of [Dataset]. *)
Definition Dataset_baseParts (this : DatasetObj) : list string :=
  match dconstructor this with
  | CommunityDataset =>
      ("auspice/" ++ Js.template (repoName (dsource this))) :: dpathParts this
  | Dataset | PrivateS3Dataset => dpathParts this
  end.

(** [new C(source, pathParts)] for a dataset class [C]; the three classes
    share the constructor of [Dataset]. *)
Definition new_Dataset (C : DatasetClass) (source : SourceObj) (pathParts : list string)
    : Result DatasetObj :=
  let this := mkDataset C source pathParts in
  if Nat.eqb (List.length (Dataset_baseParts this)) 0
  then Throw NoDatasetPathError
  else OK this.

Definition baseNameFor (this : DatasetObj) (type : string) : string :=
  let baseName := Js.join "_" (Dataset_baseParts this) in
  if String.eqb type "main"
  then baseName ++ ".json"
  else baseName ++ "_" ++ type ++ ".json".

(** [urlFor(type)]: [PrivateS3Dataset] overrides the method of [Dataset]. *)
Definition urlFor (this : DatasetObj) (type : string) : Result Url :=
  match dconstructor this with
  | Dataset | CommunityDataset =>
      let input := baseNameFor this type in
      base <- baseUrl (dsource this) ;;
      OK (URL_toString input base)
  | PrivateS3Dataset =>
      b <- bucket (dsource this) ;;
      OK (S3_getSignedUrl "getObject" b (baseNameFor this type))
  end.

Definition isRequestValidWithoutDataset (this : DatasetObj) : bool :=
  match dconstructor this with
  | CommunityDataset =>
      if Nat.eqb (List.length (dpathParts this)) 0 then true else false
  | Dataset | PrivateS3Dataset => false
  end.

(** ** Narrative handles *)

Inductive NarrativeClass : Type :=
| Narrative
| CoreNarrative
| CommunityNarrative
| PrivateS3Narrative.

Record NarrativeObj : Type := mkNarrative {
  nconstructor : NarrativeClass;
  nsource : SourceObj;
  npathParts : list string
}.

(** [new C(source, pathParts)] for a narrative class [C]: the constructor of
    [Narrative] stores its arguments and checks nothing. *)
Definition new_Narrative (C : NarrativeClass) (source : SourceObj) (pathParts : list string)
    : Result NarrativeObj :=
  OK (mkNarrative C source pathParts).

Definition Narrative_baseParts (this : NarrativeObj) : list string :=
  match nconstructor this with
  | CommunityNarrative =>
      ("narratives/" ++ Js.template (repoName (nsource this))) :: npathParts this
  | Narrative | CoreNarrative | PrivateS3Narrative => npathParts this
  end.

Definition baseName (this : NarrativeObj) : string :=
  let baseName := Js.join "_" (Narrative_baseParts this) in
  baseName ++ ".md".

Definition url (this : NarrativeObj) : Result Url :=
  match nconstructor this with
  | Narrative | CommunityNarrative =>
      let input := baseName this in
      base <- baseUrl (nsource this) ;;
      OK (URL_toString input base)
  | CoreNarrative =>
      let repoBaseUrl :=
        "https://raw.githubusercontent.com/" ++ Js.template (repo (nsource this)) ++ "/"
        ++ Js.template (branch (nsource this)) ++ "/" in
      OK (URL_toString (baseName this) repoBaseUrl)
  | PrivateS3Narrative =>
      b <- bucket (nsource this) ;;
      OK (S3_getSignedUrl "getObject" b (baseName this))
  end.

(** ** Handle factories of a source *)

Definition own_dataset (c : SourceClass) : option DatasetClass :=
  match c with
  | Source => Some Dataset
  | CommunitySource => Some CommunityDataset
  | PrivateS3Source => Some PrivateS3Dataset
  | _ => None
  end.

(** [this.dataset(pathParts)] *)
Definition dataset (this : SourceObj) (pathParts : list string) : Result DatasetObj :=
  match lookup own_dataset (prototype_chain (sconstructor this)) with
  | Some C => new_Dataset C this pathParts
  | None => not_a_function "dataset"
  end.

Definition own_narrative (c : SourceClass) : option NarrativeClass :=
  match c with
  | Source => Some Narrative
  | CoreSource => Some CoreNarrative
  | CommunitySource => Some CommunityNarrative
  | PrivateS3Source => Some PrivateS3Narrative
  | _ => None
  end.

(** [this.narrative(pathParts)] *)
Definition narrative (this : SourceObj) (pathParts : list string) : Result NarrativeObj :=
  match lookup own_narrative (prototype_chain (sconstructor this)) with
  | Some C => new_Narrative C this pathParts
  | None => not_a_function "narrative"
  end.

(** ** Enumeration *)

Definition sidecarSuffixes : list string :=
  ["meta"; "tree"; "root-sequence"; "seq"; "tip-frequencies"].

Definition notSidecar (filename : string) : bool :=
  negb (existsb (fun suffix => Js.endsWith filename ("_" ++ suffix ++ ".json"))
          sidecarSuffixes).

Definition Source_availableDatasets (w : World) (this : SourceObj) : Async JsValue :=
  resolve (JsArray []).

Definition Source_availableNarratives (w : World) (this : SourceObj) : Async (list string) :=
  resolve [].

(** [return global.availableDatasets[this.name] || [];]  Reading a property
    of a global that was never assigned is a [TypeError]. *)
Definition CoreSource_availableDatasets (w : World) (this : SourceObj)
    : Async JsValue :=
  n <~ lift (name this) ;;
  match global_availableDatasets w with
  | None =>
      reject (JsError "TypeError: Cannot read properties of undefined")
  | Some get =>
      let value := get n in
      resolve (if truthy value then value else JsArray [])
  end.

Definition CoreSource_availableNarratives (w : World) (this : SourceObj)
    : Async (list string) :=
  let qs := queryString_stringify_ref (branch this) in
  response <~ lift (fetch w ("https://api.github.com/repos/" ++ Js.template (repo this)
                             ++ "/contents?" ++ qs)) ;;
  if negb (ok response) then
    n <~ lift (name this) ;;
    _ <~ warn ("Error fetching available narratives from GitHub for source " ++ n) ;;
    resolve []
  else
    files <~ lift (json response) ;;
    resolve
      (map (fun file =>
              Js.join "/" (Js.split "_" (Js.replace_suffix ".md" "" (file_name file))))
        (filter (fun file => Js.endsWith (file_name file) ".md")
          (filter (fun file => negb (String.eqb (file_name file) "README.md"))
            (filter (fun file => String.eqb (file_type file) "file") files)))).

(** The three lists [CommunitySource.availableDatasets] computes from the
    directory listing. *)
Definition jsonFiles (this : SourceObj) (files : list GitHubFile) : list string :=
  map file_name
    (filter (fun file => Js.startsWith (file_name file) (Js.template (repoName this)))
      (filter (fun file => Js.endsWith (file_name file) ".json")
        (filter (fun file => String.eqb (file_type file) "file") files))).

Definition v2 (jsonFiles : list string) : list string :=
  map (fun filename => Js.replace_suffix ".json" "" filename)
    (filter notSidecar jsonFiles).

Definition v1 (jsonFiles : list string) : list string :=
  map (fun filename => Js.replace_suffix "_meta.json" "" filename)
    (filter (fun filename =>
               Js.includes jsonFiles (Js.replace_suffix "_meta.json" "_tree.json" filename))
      (filter (fun filename => Js.endsWith filename "_meta.json") jsonFiles)).

(** The last [map] of [CommunitySource.availableDatasets]. *)
Definition community_dataset_path (this : SourceObj) (filename : string) : string :=
  Js.join "/"
    (Js.split "_"
      (Js.strip_leading_underscore
        (Js.replace (Js.template (repoName this)) "" filename))).

Definition CommunitySource_availableDatasets (w : World) (this : SourceObj)
    : Async JsValue :=
  let qs := queryString_stringify_ref (branch this) in
  response <~ lift (fetch w ("https://api.github.com/repos/" ++ Js.template (repo this)
                             ++ "/contents/auspice?" ++ qs)) ;;
  if negb (ok response) then
    n <~ lift (name this) ;;
    _ <~ warn ("Error fetching available datasets from GitHub for source " ++ n) ;;
    resolve (JsArray [])
  else
    files <~ lift (json response) ;;
    let jsonFiles := jsonFiles this files in
    let v2 := v2 jsonFiles in
    let v1 := v1 jsonFiles in
    resolve
      (JsArray (map (community_dataset_path this) (Js.Array_from_Set (v2 ++ v1)%list))).

Definition CommunitySource_availableNarratives (w : World) (this : SourceObj)
    : Async (list string) :=
  let qs := queryString_stringify_ref (branch this) in
  response <~ lift (fetch w ("https://api.github.com/repos/" ++ Js.template (repo this)
                             ++ "/contents/narratives?" ++ qs)) ;;
  if negb (ok response) then
    n <~ lift (name this) ;;
    _ <~ warn ("Error fetching available narratives from GitHub for source " ++ n) ;;
    resolve []
  else
    files <~ lift (json response) ;;
    resolve
      (map (fun file =>
              Js.join "/"
                (Js.split "_"
                  (Js.replace_suffix ".md" ""
                    (Js.strip_leading_underscore
                      (Js.replace (Js.template (repoName this)) "" (file_name file))))))
        (filter (fun file => Js.startsWith (file_name file) (Js.template (repoName this)))
          (filter (fun file => Js.endsWith (file_name file) ".md")
            (filter (fun file => negb (String.eqb (file_name file) "README.md"))
              (filter (fun file => String.eqb (file_type file) "file") files))))).

(** [S3Source._listObjects]: one request, and the [Contents] of its answer. *)
Definition _listObjects (w : World) (this : SourceObj) : Async (list S3Object) :=
  b <~ lift (bucket this) ;;
  list <~ lift (S3_listObjectsV2 w b None) ;;
  resolve (Contents list).

Definition S3Source_availableDatasets (w : World) (this : SourceObj)
    : Async JsValue :=
  objects <~ _listObjects w this ;;
  resolve
    (JsArray
      (map (fun file => Js.join "/" (Js.split "_" (Js.replace_suffix "_tree.json" "" file)))
        (filter (fun file => Js.endsWith file "_tree.json")
          (map Key objects)))).

Definition S3Source_availableNarratives (w : World) (this : SourceObj)
    : Async (list string) :=
  objects <~ _listObjects w this ;;
  resolve
    (map (fun file => Js.join "/" (Js.split "_" (Js.replace_suffix ".md" "" file)))
      (filter (fun file => Js.endsWith file ".md")
        (map Key objects))).

Definition own_availableDatasets (c : SourceClass)
    : option (World -> SourceObj -> Async JsValue) :=
  match c with
  | Source => Some Source_availableDatasets
  | CoreSource => Some CoreSource_availableDatasets
  | CommunitySource => Some CommunitySource_availableDatasets
  | S3Source => Some S3Source_availableDatasets
  | _ => None
  end.

Definition availableDatasets (w : World) (this : SourceObj) : Async JsValue :=
  match lookup own_availableDatasets (prototype_chain (sconstructor this)) with
  | Some method => method w this
  | None => lift (not_a_function "availableDatasets")
  end.

Definition own_availableNarratives (c : SourceClass)
    : option (World -> SourceObj -> Async (list string)) :=
  match c with
  | Source => Some Source_availableNarratives
  | CoreSource => Some CoreSource_availableNarratives
  | CommunitySource => Some CommunitySource_availableNarratives
  | S3Source => Some S3Source_availableNarratives
  | _ => None
  end.

Definition availableNarratives (w : World) (this : SourceObj) : Async (list string) :=
  match lookup own_availableNarratives (prototype_chain (sconstructor this)) with
  | Some method => method w this
  | None => lift (not_a_function "availableNarratives")
  end.

(** The requests the GitHub-backed enumerations send. *)
Definition CoreSource_narratives_request (this : SourceObj) : string :=
  "https://api.github.com/repos/" ++ Js.template (repo this)
  ++ "/contents?" ++ queryString_stringify_ref (branch this).

Definition CommunitySource_datasets_request (this : SourceObj) : string :=
  "https://api.github.com/repos/" ++ Js.template (repo this)
  ++ "/contents/auspice?" ++ queryString_stringify_ref (branch this).

Definition CommunitySource_narratives_request (this : SourceObj) : string :=
  "https://api.github.com/repos/" ++ Js.template (repo this)
  ++ "/contents/narratives?" ++ queryString_stringify_ref (branch this).

(** ** The registry *)

(** The classes registered under their [_name]. *)
Definition sources : list SourceClass :=
  [CoreSource; CoreStagingSource; CommunitySource; InrbDrcSource; SeattleFluSource].

(** ** Relations on the class hierarchy *)

(** [extends c a]: [c] is [a] or one of its descendants. *)
Definition extends (c a : SourceClass) : Prop :=
  In a (prototype_chain c).

(** [inherits_visibleToUser c a]: a call of the static [visibleToUser] on [c]
    runs the method declared by [a], because no class from [c] up to [a]
    declares one of its own. *)
Inductive inherits_visibleToUser : SourceClass -> SourceClass -> Prop :=
| inherits_own : forall c,
    own_visibleToUser c <> None ->
    inherits_visibleToUser c c
| inherits_super : forall c p a,
    superclass c = Some p ->
    own_visibleToUser c = None ->
    inherits_visibleToUser p a ->
    inherits_visibleToUser c a.

(** ** Concrete sources and upstream answers used in the examples *)

Definition core : SourceObj := mkSource CoreSource None None.
Definition seattleflu : SourceObj := mkSource SeattleFluSource None None.
Definition inrb_drc : SourceObj := mkSource InrbDrcSource None None.
Definition ncov : SourceObj := mkSource CommunitySource (Some "nextstrain") (Some "ncov").

Definition digit (d : nat) : ascii := ascii_of_nat (48 + d).

Definition three_digits (n : nat) : string :=
  String (digit (n / 100)) (String (digit ((n / 10) mod 10)) (String (digit (n mod 10)) "")).

(** A bucket of 1001 distinct keys in listing order: one dataset, 999 other
    objects, and a second dataset whose key sorts last. *)
Definition large_bucket : list S3Object :=
  (mkObject "flu_tree.json"
   :: map (fun i => mkObject ("logs/" ++ three_digits i ++ ".txt")) (seq 0 999))
  ++ [mkObject "zika_tree.json"].

Definition large_bucket_world : World :=
  mkWorld (fun _ => Throw (UpstreamError "fetch: not requested"))
          (fun b => match b with
                    | Some "nextstrain-seattleflu" => OK large_bucket
                    | _ => Throw (UpstreamError "NoSuchBucket")
                    end)
          None.

(** The object-storage listing fails. *)
Definition failing_bucket_world : World :=
  mkWorld (fun _ => Throw (UpstreamError "fetch: not requested"))
          (fun _ => Throw (UpstreamError "AccessDenied"))
          None.

(** The GitHub contents API answers every request with [response]. *)
Definition github_world (response : Result Response) : World :=
  mkWorld (fun _ => response)
          (fun _ => Throw (UpstreamError "NoSuchBucket"))
          None.

(** A listing of [auspice/] in which the dataset stem [ncov_a] is present in
    both formats, next to a file [ncova.json]. *)
Definition colliding_listing : list GitHubFile :=
  [mkFile "file" "ncov_a.json";
   mkFile "file" "ncov_a_meta.json";
   mkFile "file" "ncov_a_tree.json";
   mkFile "file" "ncova.json"].

(** A listing of [auspice/] with one dataset in both formats and one in the
    older format only. *)
Definition mixed_listing : list GitHubFile :=
  [mkFile "file" "ncov_global.json";
   mkFile "file" "ncov_global_meta.json";
   mkFile "file" "ncov_global_tree.json";
   mkFile "file" "ncov_zika_meta.json";
   mkFile "file" "ncov_zika_tree.json";
   mkFile "dir" "ncov_extra.json";
   mkFile "file" "README.md"].

(** ** Source information *)

(** The object [getInfo()] resolves to; [avatar] is missing from the one of
    [S3Source]. *)
Record Info : Type := mkInfo {
  title : string;
  byline : string;
  showDatasets : bool;
  showNarratives : bool;
  avatar : option string
}.

(** [try { body } catch (err) { handler }] around an [async] body. *)
Definition try_catch {A : Type} (body : Async A) (handler : Error -> Async A) : Async A :=
  match body with
  | (log, OK a) => (log, OK a)
  | (log, Throw err) => let (log', r) := handler err in ((log ++ log')%list, r)
  end.

Definition CommunitySource_getInfo (this : SourceObj) : Async Info :=
  resolve
    {| title := Js.template (owner this) ++ "'s Nextstrain community builds for "
                ++ Js.template (repoName this);
       byline := "Nextstrain community builds source datasets from GitHub repositories, in this case"
                 ++ (" https://github.com/" ++ Js.template (owner this) ++ "/"
                     ++ Js.template (repoName this)
                     ++ ". You can see the available datasets listed below :)");
       showDatasets := true;
       showNarratives := true;
       avatar := Some ("https://github.com/" ++ Js.template (owner this) ++ ".png?size=200") |}.

Definition S3Source_getInfo (this : SourceObj) : Async Info :=
  try_catch
    (reject (JsError ""))
    (fun err =>
       b <~ lift (bucket this) ;;
       resolve
         {| title := "Nextstrain group page for " ++ Js.template b;
            byline := "The following are the available datasets & narratives for this nextstrain group:";
            showDatasets := true;
            showNarratives := true;
            avatar := None |}).

(** Only [CommunitySource] and [S3Source] declare [getInfo]; [Source] does
    not. *)
Definition own_getInfo (c : SourceClass) : option (SourceObj -> Async Info) :=
  match c with
  | CommunitySource => Some CommunitySource_getInfo
  | S3Source => Some S3Source_getInfo
  | _ => None
  end.

Definition getInfo (this : SourceObj) : Async Info :=
  match lookup own_getInfo (prototype_chain (sconstructor this)) with
  | Some method => method this
  | None => lift (not_a_function "getInfo")
  end.

(** ** The exported map *)

(** A [Map] from names to classes, as the list of its entries in insertion
    order. *)
Definition JsMap : Type := list (string * SourceClass).

(** [m.set(k, v)]: the value of an existing key is replaced where it stands,
    a new key is added at the end. *)
Fixpoint Map_set (m : JsMap) (k : string) (v : SourceClass) : JsMap :=
  match m with
  | [] => [(k, v)]
  | (k', v') :: m' =>
      if String.eqb k' k then (k', v) :: m' else (k', v') :: Map_set m' k v
  end.

(** [m.get(k)] *)
Fixpoint Map_get (m : JsMap) (k : string) : option SourceClass :=
  match m with
  | [] => None
  | (k', v') :: m' => if String.eqb k' k then Some v' else Map_get m' k
  end.

(** [classes.map(s => [s._name, s])]; reading [_name] may throw. *)
Fixpoint name_entries (classes : list SourceClass) : Result (list (string * SourceClass)) :=
  match classes with
  | [] => OK []
  | s :: classes' =>
      n <- _name s ;;
      entries <- name_entries classes' ;;
      OK ((n, s) :: entries)
  end.

(** [new Map(entries)] *)
Definition new_Map (entries : list (string * SourceClass)) : JsMap :=
  fold_left (fun m entry => Map_set m (fst entry) (snd entry)) entries [].

(** [const sourceMap = new Map(sources.map(s => [s._name, s]))], the value the
    module exports. *)
Definition sourceMap : Result JsMap :=
  entries <- name_entries sources ;;
  OK (new_Map entries).

(** ** Vocabulary of the properties *)

(** [s] with every [from] character replaced by [to]. *)
Fixpoint replace_char (from to : ascii) (s : string) : string :=
  match s with
  | EmptyString => EmptyString
  | String c s' => String (if Ascii.eqb c from then to else c) (replace_char from to s')
  end.

(** The character [c] occurs in [s]. *)
Fixpoint occurs (c : ascii) (s : string) : bool :=
  match s with
  | EmptyString => false
  | String c' s' => Ascii.eqb c' c || occurs c s'
  end.

(** Path segments that can be told apart in a file name: none contains an
    underscore. *)
Definition plain_segments (ps : list string) : Prop :=
  Forall (fun p => occurs "_" p = false) ps.

(** No class from [c] upwards that a deployment added declares a
    [visibleToUser] of its own. *)
Fixpoint no_visibleToUser_override (c : SourceClass) : Prop :=
  match c with
  | Subclass parent body =>
      body_visibleToUser body = None /\ no_visibleToUser_override parent
  | _ => True
  end.

(** No class from [c] upwards overrides the [bucket] getter of the group
    sources: [InrbDrcSource] does, and so does a class a deployment added with
    a [bucket] of its own. *)
Fixpoint no_bucket_override (c : SourceClass) : Prop :=
  match c with
  | InrbDrcSource => False
  | Subclass parent body => body_bucket body = None /\ no_bucket_override parent
  | _ => True
  end.

(** * Properties *)

(** ** Strings and arrays *)

Section StringFacts.

Example split_ex : Js.split "_" "flu_seasonal_h3n2" = ["flu"; "seasonal"; "h3n2"].
Proof. reflexivity. Qed.

Example split_leading_ex : Js.split "_" "_a" = [""; "a"].
Proof. reflexivity. Qed.

Example join_ex : Js.join "/" ["flu"; "seasonal"; "h3n2"] = "flu/seasonal/h3n2".
Proof. reflexivity. Qed.

Example replace_ex : Js.replace "ncov" "" "ncov_global_ncov" = "_global_ncov".
Proof. reflexivity. Qed.

Example replace_suffix_ex : Js.replace_suffix "_meta.json" "_tree.json" "zika_meta.json" = "zika_tree.json".
Proof. reflexivity. Qed.

Example Array_from_Set_ex : Js.Array_from_Set ["a"; "b"; "a"; "c"; "b"] = ["a"; "b"; "c"].
Proof. reflexivity. Qed.

Lemma append_nil_r (s : string) : s ++ "" = s.
Proof.
  induction s as [|c s IH]; simpl; [reflexivity | now rewrite IH].
Qed.

Lemma append_assoc (s t u : string) : (s ++ t) ++ u = s ++ (t ++ u).
Proof.
  induction s as [|c s IH]; simpl; [reflexivity | now rewrite IH].
Qed.

Lemma length_append (s t : string) :
  String.length (s ++ t) = (String.length s + String.length t)%nat.
Proof.
  induction s as [|c s IH]; simpl; [reflexivity | now rewrite IH].
Qed.

Lemma cons_append_neq (c : ascii) (p suf : string) : String c (p ++ suf) <> suf.
Proof.
  intro E. apply (f_equal String.length) in E.
  simpl in E. rewrite length_append in E. lia.
Qed.

(** The anchored match finds the suffix whenever it is there... *)
Lemma strip_suffix_append (suf p : string) :
  Js.strip_suffix suf (p ++ suf) = Some p.
Proof.
  induction p as [|c p IH].
  - simpl. destruct suf; simpl; now rewrite ?Ascii.eqb_refl, ?String.eqb_refl.
  - change (String c p ++ suf) with (String c (p ++ suf)).
    cbn [Js.strip_suffix].
    destruct (String.eqb_spec (String c (p ++ suf)) suf) as [E|_].
    + now apply cons_append_neq in E.
    + now rewrite IH.
Qed.

(** ...and only then. *)
Lemma strip_suffix_Some (suf s p : string) :
  Js.strip_suffix suf s = Some p -> s = p ++ suf.
Proof.
  revert p. induction s as [|c s IH]; intros p H.
  - cbn [Js.strip_suffix] in H.
    destruct (String.eqb_spec "" suf) as [E|_]; [|discriminate].
    injection H as <-. exact E.
  - cbn [Js.strip_suffix] in H.
    destruct (String.eqb_spec (String c s) suf) as [E|_].
    + injection H as <-. exact E.
    + destruct (Js.strip_suffix suf s) as [q|] eqn:Q; [|discriminate].
      injection H as <-. simpl. f_equal. now apply IH.
Qed.

Lemma endsWith_append (p suf : string) : Js.endsWith (p ++ suf) suf = true.
Proof.
  unfold Js.endsWith. now rewrite strip_suffix_append.
Qed.

Lemma endsWith_iff (s suf : string) :
  Js.endsWith s suf = true <-> exists p, s = p ++ suf.
Proof.
  unfold Js.endsWith. split.
  - destruct (Js.strip_suffix suf s) as [p|] eqn:E; [|discriminate].
    intros _. exists p. now apply strip_suffix_Some.
  - intros [p ->]. now rewrite strip_suffix_append.
Qed.

Lemma replace_suffix_append (suf rep p : string) :
  Js.replace_suffix suf rep (p ++ suf) = p ++ rep.
Proof.
  unfold Js.replace_suffix. now rewrite strip_suffix_append.
Qed.

Lemma startsWith_append (s p t : string) :
  Js.startsWith s p = true -> Js.startsWith (s ++ t) p = true.
Proof.
  unfold Js.startsWith. revert s.
  induction p as [|c p IH]; intros s H.
  - now destruct (s ++ t).
  - destruct s as [|d s]; simpl in H; [discriminate|].
    simpl. destruct (ascii_dec c d); [now apply IH | discriminate].
Qed.

Lemma join_from_concat (sep R x : string) (a : list string) :
  Js.join_from sep false (R ++ x) a = R ++ String.concat sep (x :: a).
Proof.
  revert R x. induction a as [|y a IH]; intros R x.
  - reflexivity.
  - cbn [Js.join_from]. rewrite IH.
    change (String.concat sep (x :: y :: a))
      with (x ++ sep ++ String.concat sep (y :: a)).
    now rewrite !append_assoc.
Qed.

(** [join] computes the elements separated by [sep]. *)
Lemma join_concat (sep : string) (a : list string) :
  Js.join sep a = String.concat sep a.
Proof.
  destruct a as [|x a]; [reflexivity|].
  unfold Js.join. cbn [Js.join_from].
  now rewrite join_from_concat.
Qed.

Lemma includes_In (a : list string) (x : string) :
  Js.includes a x = true <-> In x a.
Proof.
  induction a as [|y a IH]; simpl.
  - split; [discriminate | tauto].
  - rewrite orb_true_iff, IH, String.eqb_eq. tauto.
Qed.

Lemma Set_add_In (s : list string) (x y : string) :
  In y (Js.Set_add s x) <-> In y s \/ y = x.
Proof.
  unfold Js.Set_add.
  destruct (Js.includes s x) eqn:E.
  - apply includes_In in E. split; [tauto | intros [H| ->]; assumption].
  - rewrite in_app_iff. simpl. intuition congruence.
Qed.

Lemma Set_add_NoDup (s : list string) (x : string) :
  NoDup s -> NoDup (Js.Set_add s x).
Proof.
  intros ND. unfold Js.Set_add.
  destruct (Js.includes s x) eqn:E; [assumption|].
  assert (~ In x s) as NI.
  { intro H. apply includes_In in H. congruence. }
  clear E. induction ND as [|z s Hz ND IH]; simpl.
  - constructor; [tauto | constructor].
  - constructor.
    + rewrite in_app_iff. simpl in NI. simpl. intuition congruence.
    + apply IH. simpl in NI. tauto.
Qed.

Lemma fold_Set_add_In (a s : list string) (y : string) :
  In y (fold_left Js.Set_add a s) <-> In y s \/ In y a.
Proof.
  revert s. induction a as [|x a IH]; intros s; simpl.
  - tauto.
  - rewrite IH, Set_add_In. intuition congruence.
Qed.

Lemma fold_Set_add_NoDup (a s : list string) :
  NoDup s -> NoDup (fold_left Js.Set_add a s).
Proof.
  revert s. induction a as [|x a IH]; intros s ND; simpl.
  - assumption.
  - apply IH. now apply Set_add_NoDup.
Qed.

(** A [Set] holds each value of the array once. *)
Lemma Array_from_Set_In (a : list string) (y : string) :
  In y (Js.Array_from_Set a) <-> In y a.
Proof.
  unfold Js.Array_from_Set. rewrite fold_Set_add_In. simpl. tauto.
Qed.

Lemma Array_from_Set_NoDup (a : list string) : NoDup (Js.Array_from_Set a).
Proof.
  unfold Js.Array_from_Set. apply fold_Set_add_NoDup. constructor.
Qed.

Lemma Array_from_Set_count (a : list string) (y : string) :
  In y a -> count_occ string_dec (Js.Array_from_Set a) y = 1%nat.
Proof.
  intros H.
  apply (proj1 (NoDup_count_occ' string_dec _) (Array_from_Set_NoDup a)).
  now apply Array_from_Set_In.
Qed.

(** An element whose image no other element shares is counted once after
    [map]. *)
Lemma count_occ_map_once (f : string -> string) (l : list string) (x : string) :
  NoDup l -> In x l ->
  (forall y, In y l -> f y = f x -> y = x) ->
  count_occ string_dec (map f l) (f x) = 1%nat.
Proof.
  intros ND. induction ND as [|z l Hz ND IH]; intros Hin Hinj.
  - destruct Hin.
  - simpl. destruct (string_dec (f z) (f x)) as [E|NE].
    + assert (z = x) as -> by (apply Hinj; [now left | exact E]).
      f_equal. apply count_occ_not_In. intro H.
      apply in_map_iff in H as (y & Ey & Hy).
      assert (y = x) as -> by (apply Hinj; [now right | exact Ey]).
      contradiction.
    + apply IH.
      * destruct Hin as [->|Hin]; [congruence | exact Hin].
      * intros y Hy. apply Hinj. now right.
Qed.

End StringFacts.

(** ** The class hierarchy *)

Lemma prototype_chain_superclass (c : SourceClass) :
  prototype_chain c =
  c :: match superclass c with
       | Some p => prototype_chain p
       | None => []
       end.
Proof.
  destruct c; reflexivity.
Qed.

Lemma extends_refl (c : SourceClass) : extends c c.
Proof.
  unfold extends. destruct c; simpl; now left.
Qed.

Lemma extends_Source (c : SourceClass) : extends c Source.
Proof.
  unfold extends. induction c; simpl; auto 10.
Qed.

(** A member that [Source] declares is found from every class. *)
Lemma lookup_declared_by_Source {A : Type} (own : SourceClass -> option A) (c : SourceClass) :
  own Source <> None -> lookup own (prototype_chain c) <> None.
Proof.
  intros HS.
  assert (forall chain, In Source chain -> lookup own chain <> None) as H.
  { induction chain as [|c' chain IH]; simpl; [tauto|].
    intros [->|Hin].
    - destruct (own Source); [discriminate | contradiction].
    - destruct (own c'); [discriminate | now apply IH]. }
  apply H, extends_Source.
Qed.

(** Case analysis on a class and its position in the hierarchy: the built-in
    classes are settled by computation, a [Subclass] by the induction
    hypothesis on its parent. *)
Ltac hierarchy c :=
  unfold extends;
  induction c; simpl in *;
  try solve [ reflexivity | discriminate | tauto | intuition discriminate
            | intuition congruence ].

Lemma dataset_of_CommunitySource (c : SourceClass) :
  lookup own_dataset (prototype_chain c) = Some CommunityDataset
  <-> extends c CommunitySource.
Proof.
  hierarchy c.
Qed.

Lemma dataset_of_PrivateS3Source (c : SourceClass) :
  lookup own_dataset (prototype_chain c) = Some PrivateS3Dataset
  <-> extends c PrivateS3Source.
Proof.
  hierarchy c.
Qed.

Lemma narrative_of_PrivateS3Source (c : SourceClass) :
  lookup own_narrative (prototype_chain c) = Some PrivateS3Narrative
  <-> extends c PrivateS3Source.
Proof.
  hierarchy c.
Qed.

Lemma availableDatasets_of_S3Source (c : SourceClass) :
  extends c S3Source ->
  lookup own_availableDatasets (prototype_chain c) = Some S3Source_availableDatasets.
Proof.
  hierarchy c.
Qed.

Lemma availableNarratives_of_S3Source (c : SourceClass) :
  extends c S3Source ->
  lookup own_availableNarratives (prototype_chain c) = Some S3Source_availableNarratives.
Proof.
  hierarchy c.
Qed.

Lemma availableNarratives_of_CoreSource (c : SourceClass) :
  extends c CoreSource ->
  lookup own_availableNarratives (prototype_chain c) = Some CoreSource_availableNarratives.
Proof.
  hierarchy c.
Qed.

Lemma availableDatasets_of_CommunitySource (c : SourceClass) :
  extends c CommunitySource ->
  lookup own_availableDatasets (prototype_chain c) = Some CommunitySource_availableDatasets.
Proof.
  hierarchy c.
Qed.

Lemma availableNarratives_of_CommunitySource (c : SourceClass) :
  extends c CommunitySource ->
  lookup own_availableNarratives (prototype_chain c)
  = Some CommunitySource_availableNarratives.
Proof.
  hierarchy c.
Qed.

Lemma constructor_of_CommunitySource (c : SourceClass) :
  extends c CommunitySource ->
  lookup own_constructor (prototype_chain c) = own_constructor CommunitySource.
Proof.
  hierarchy c.
Qed.

(** A GitHub-backed source has a name. *)
Lemma name_of_GitHub_source (c : SourceClass) :
  extends c CoreSource \/ extends c CommunitySource ->
  exists n, _name c = OK n.
Proof.
  unfold extends, _name.
  induction c as [| | | | | | | | | |p IH body]; simpl;
    try solve [ eexists; reflexivity | intuition discriminate ].
  intros H. destruct (body__name body) as [n|]; simpl.
  - now exists n.
  - apply IH. destruct H as [[E|H]|[E|H]]; try discriminate E; tauto.
Qed.

(** The static method a class runs is the one of the class it inherits it
    from. *)
Lemma inherits_visibleToUser_lookup (c a : SourceClass) :
  inherits_visibleToUser c a ->
  lookup own_visibleToUser (prototype_chain c) = own_visibleToUser a.
Proof.
  induction 1 as [c Hown | c p a Hsuper Hnone _ IH].
  - rewrite prototype_chain_superclass. cbn [lookup].
    destruct (own_visibleToUser c); [reflexivity | contradiction].
  - rewrite prototype_chain_superclass, Hsuper. cbn [lookup].
    now rewrite Hnone.
Qed.

(** What the [dataset] factory returns, when it returns. *)
Lemma dataset_inv (this : SourceObj) (pathParts : list string) (d : DatasetObj) :
  dataset this pathParts = OK d ->
  exists C,
    lookup own_dataset (prototype_chain (sconstructor this)) = Some C
    /\ d = mkDataset C this pathParts
    /\ Dataset_baseParts d <> [].
Proof.
  unfold dataset, new_Dataset.
  destruct (lookup own_dataset (prototype_chain (sconstructor this))) as [C|];
    [|discriminate].
  destruct (Dataset_baseParts (mkDataset C this pathParts)) eqn:E; simpl;
    [discriminate|].
  intros [= <-]. exists C. rewrite E. repeat split. discriminate.
Qed.

Lemma narrative_inv (this : SourceObj) (pathParts : list string) (n : NarrativeObj) :
  narrative this pathParts = OK n ->
  exists N,
    lookup own_narrative (prototype_chain (sconstructor this)) = Some N
    /\ n = mkNarrative N this pathParts.
Proof.
  unfold narrative, new_Narrative.
  destruct (lookup own_narrative (prototype_chain (sconstructor this))) as [N|];
    [|discriminate].
  intros [= <-]. now exists N.
Qed.

(** ** Dataset and narrative handles *)

Example registry_names :
  map _name sources
  = [OK "core"; OK "staging"; OK "community"; OK "inrb-drc"; OK "seattleflu"].
Proof. reflexivity. Qed.

Example community_dataset_url :
  bind (dataset ncov ["global"]) (fun d => urlFor d "main")
  = OK (URL_toString "auspice/ncov_global.json"
          "https://raw.githubusercontent.com/nextstrain/ncov/master/").
Proof. reflexivity. Qed.

Example core_narrative_url :
  bind (narrative core ["ncov"; "sit-rep"]) url
  = OK (URL_toString "ncov_sit-rep.md"
          "https://raw.githubusercontent.com/nextstrain/narratives/master/").
Proof. reflexivity. Qed.

Example seattleflu_dataset_url :
  bind (dataset seattleflu ["flu"]) (fun d => urlFor d "tree")
  = OK (URL_toString "flu_tree.json" "https://nextstrain-seattleflu.s3.amazonaws.com").
Proof. reflexivity. Qed.

Example community_source_needs_owner :
  new CommunitySource None (Some "ncov")
  = Throw (JsError "Cannot construct a CommunitySource without an owner").
Proof. reflexivity. Qed.

(** C8.  For every dataset handle, [baseNameFor("main")] is the base parts
    joined with underscores followed by [.json], and [baseNameFor(v)] for any
    other variant [v] is the joined base parts followed by [_<v>.json].  On
    the segments flu, seasonal, h3n2 the main variant is
    [flu_seasonal_h3n2.json] and the meta variant is
    [flu_seasonal_h3n2_meta.json]. *)
Theorem baseNameFor_spec :
  (forall (this : DatasetObj) (v : string),
      baseNameFor this "main" = String.concat "_" (Dataset_baseParts this) ++ ".json"
      /\ (v <> "main" ->
          baseNameFor this v
          = String.concat "_" (Dataset_baseParts this) ++ "_" ++ v ++ ".json"))
  /\ (exists d,
         dataset core ["flu"; "seasonal"; "h3n2"] = OK d
         /\ baseNameFor d "main" = "flu_seasonal_h3n2.json"
         /\ baseNameFor d "meta" = "flu_seasonal_h3n2_meta.json").
Proof.
  split.
  - intros this v. unfold baseNameFor. rewrite join_concat. split.
    + reflexivity.
    + intros Hv. apply String.eqb_neq in Hv. now rewrite Hv.
  - eexists. repeat split.
Qed.

Lemma baseNameFor_spec_witness :
  "tip-frequencies" <> "main"
  /\ baseNameFor (mkDataset CommunityDataset ncov ["global"]) "tip-frequencies"
     = "auspice/ncov_global_tip-frequencies.json".
Proof.
  assert ("tip-frequencies" <> "main") as H by discriminate.
  split; [exact H|].
  exact (proj2 (proj1 baseNameFor_spec
                  (mkDataset CommunityDataset ncov ["global"]) "tip-frequencies") H).
Defined.

(** C9.  For a community source built with repo name [r], the dataset handle
    of any path segments [ps] exists and its base parts are ["auspice/" + r]
    followed by [ps]. *)
Theorem CommunityDataset_baseParts_spec :
  forall (c : SourceClass) (o : option string) (r : string) (ps : list string)
         (this : SourceObj),
    extends c CommunitySource ->
    new c o (Some r) = OK this ->
    exists d,
      dataset this ps = OK d
      /\ Dataset_baseParts d = ("auspice/" ++ r) :: ps.
Proof.
  intros c o r ps this Hc Hnew.
  unfold new in Hnew. rewrite (constructor_of_CommunitySource c Hc) in Hnew.
  cbn [own_constructor] in Hnew.
  destruct (Js.falsy o); [discriminate|].
  destruct (Js.falsy (Some r)); [discriminate|].
  injection Hnew as <-.
  exists (mkDataset CommunityDataset (mkSource c o (Some r)) ps).
  unfold dataset. cbn [sconstructor].
  rewrite (proj2 (dataset_of_CommunitySource c) Hc).
  split; reflexivity.
Qed.

Lemma CommunityDataset_baseParts_spec_witness :
  exists d,
    dataset ncov ["global"] = OK d
    /\ Dataset_baseParts d = ["auspice/ncov"; "global"].
Proof.
  apply (@CommunityDataset_baseParts_spec CommunitySource (Some "nextstrain") "ncov"
           ["global"] ncov).
  - apply extends_refl.
  - reflexivity.
Defined.

(** C10.  The handle a source builds is a [CommunityDataset] exactly for a
    community source.  [isRequestValidWithoutDataset] is false for every other
    dataset handle; for a community dataset handle it is true if and only if
    the handle was built from zero path segments. *)
Theorem isRequestValidWithoutDataset_spec :
  forall (this : SourceObj) (ps : list string) (d : DatasetObj),
    dataset this ps = OK d ->
    (dconstructor d = CommunityDataset <-> extends (sconstructor this) CommunitySource)
    /\ (dconstructor d <> CommunityDataset -> isRequestValidWithoutDataset d = false)
    /\ (dconstructor d = CommunityDataset ->
        (isRequestValidWithoutDataset d = true <-> ps = [])).
Proof.
  intros this ps d H.
  apply dataset_inv in H as (C & HC & -> & _).
  cbn [dconstructor]. split; [|split].
  - split.
    + intros ->. now apply dataset_of_CommunitySource.
    + intros Hc. apply dataset_of_CommunitySource in Hc. congruence.
  - intros HC'. unfold isRequestValidWithoutDataset. cbn [dconstructor].
    destruct C; [reflexivity | congruence | reflexivity].
  - intros ->. unfold isRequestValidWithoutDataset. cbn [dconstructor dpathParts].
    destruct ps; simpl; split; congruence.
Qed.

Lemma isRequestValidWithoutDataset_spec_witness :
  isRequestValidWithoutDataset (mkDataset CommunityDataset ncov []) = true.
Proof.
  assert (dataset ncov [] = OK (mkDataset CommunityDataset ncov [])) as H
    by reflexivity.
  destruct (isRequestValidWithoutDataset_spec ncov [] H) as (_ & _ & Hiff).
  apply (Hiff eq_refl). reflexivity.
Defined.

(** C2, against the claim as stated: the narrative handle of the core source
    for no path segments has empty base parts, and its construction
    succeeds. *)
Lemma Narrative_with_empty_baseParts_is_constructed :
  exists n,
    narrative core [] = OK n
    /\ Narrative_baseParts n = []
    /\ narrative core [] <> Throw NoDatasetPathError.
Proof.
  eexists. split; [reflexivity|]. split; [reflexivity | discriminate].
Qed.

(** C2, amended.  Constructing a dataset handle of any class fails with the
    no-dataset-path error when the computed base parts are empty and succeeds
    otherwise, and the [dataset] factory of every source is such a
    construction.  Constructing a narrative handle checks nothing and always
    succeeds. *)
Theorem construction_checks_Dataset_baseParts :
  forall (this : SourceObj) (pathParts : list string),
    (forall C,
        new_Dataset C this pathParts
        = match Dataset_baseParts (mkDataset C this pathParts) with
          | [] => Throw NoDatasetPathError
          | _ :: _ => OK (mkDataset C this pathParts)
          end)
    /\ (exists C, dataset this pathParts = new_Dataset C this pathParts)
    /\ (forall N, new_Narrative N this pathParts = OK (mkNarrative N this pathParts))
    /\ (exists N, narrative this pathParts = OK (mkNarrative N this pathParts)).
Proof.
  intros this pathParts. repeat split.
  - intros C. unfold new_Dataset.
    now destruct (Dataset_baseParts (mkDataset C this pathParts)).
  - unfold dataset.
    destruct (lookup own_dataset (prototype_chain (sconstructor this))) as [C|] eqn:E.
    + now exists C.
    + exfalso. revert E. now apply lookup_declared_by_Source.
  - unfold narrative, new_Narrative.
    destruct (lookup own_narrative (prototype_chain (sconstructor this))) as [N|] eqn:E.
    + now exists N.
    + exfalso. revert E. now apply lookup_declared_by_Source.
Qed.

(** ** Access control *)

(** C3.  For every private group source and every user value,
    [visibleToUser(user)] returns true if and only if the user is present,
    has a group list, and that list contains the source's name.  It returns
    false for an absent user and for a user without a group list, and, the
    source having a name, it returns a boolean for every user, which is false
    when the group list is empty. *)
Theorem PrivateGroupSource_visibleToUser_spec :
  forall (this : SourceObj) (user : option User),
    inherits_visibleToUser (sconstructor this) PrivateGroupSource ->
    (visibleToUser this user = OK true <->
     exists u gs n,
       user = Some u /\ groups u = Some gs /\ name this = OK n /\ In n gs)
    /\ visibleToUser this None = OK false
    /\ visibleToUser this (Some (mkUser None)) = OK false
    /\ (forall n,
          name this = OK n ->
          (exists b, visibleToUser this user = OK b)
          /\ visibleToUser this (Some (mkUser (Some []))) = OK false).
Proof.
  intros this user Hc.
  unfold visibleToUser, static_visibleToUser.
  rewrite (inherits_visibleToUser_lookup Hc). cbn [own_visibleToUser groups].
  fold (name this).
  split; [|split; [reflexivity | split; [reflexivity|]]].
  - destruct user as [[[gs|]]|]; cbn [groups].
    + destruct (name this) as [n|e]; cbn [bind].
      * split.
        -- intros [= H]. apply includes_In in H.
           now exists (mkUser (Some gs)), gs, n.
        -- intros (u & gs' & n' & [= <-] & [= <-] & [= <-] & H).
           f_equal. now apply includes_In.
      * split; [discriminate|].
        intros (u & gs' & n' & _ & _ & E & _). discriminate E.
    + split; [discriminate|].
      intros (u & gs' & n' & [= <-] & E & _). discriminate E.
    + split; [discriminate|].
      intros (u & gs' & n' & E & _). discriminate E.
  - intros n Hn. rewrite Hn. cbn [bind Js.includes].
    split; [|reflexivity].
    destruct user as [[[gs|]]|]; cbn [groups]; eexists; reflexivity.
Qed.

Lemma PrivateGroupSource_visibleToUser_spec_witness :
  visibleToUser inrb_drc (Some (mkUser (Some ["blab"; "inrb-drc"]))) = OK true.
Proof.
  assert (inherits_visibleToUser InrbDrcSource PrivateGroupSource) as Hc.
  { apply inherits_super with (p := PrivateGroupSource); [reflexivity | reflexivity|].
    apply inherits_own. discriminate. }
  apply (PrivateGroupSource_visibleToUser_spec inrb_drc
           (Some (mkUser (Some ["blab"; "inrb-drc"]))) Hc).
  exists (mkUser (Some ["blab"; "inrb-drc"])), ["blab"; "inrb-drc"], "inrb-drc".
  repeat split. simpl. tauto.
Defined.



(** ** URLs of access-controlled sources *)

Lemma bucket_of_S3Source (this : SourceObj) (b : option string) :
  extends (sconstructor this) S3Source ->
  bucket this = OK b ->
  exists bucket_name, b = Some bucket_name.
Proof.
  intros Hc. unfold bucket.
  assert (lookup own_bucket (prototype_chain (sconstructor this)) <> None) as Hl.
  { revert Hc. generalize (sconstructor this) as c. unfold extends.
    induction c as [| | | | | | | | | |p IH body]; simpl;
      try solve [discriminate | intuition discriminate].
    intros [E|Hin]; [discriminate|].
    destruct (body_bucket body); simpl; [discriminate | now apply IH]. }
  destruct (lookup own_bucket (prototype_chain (sconstructor this))) as [getter|];
    [|contradiction].
  destruct (getter this) as [bn|e]; simpl; [|discriminate].
  intros [= <-]. now exists bn.
Qed.

Lemma extends_PrivateS3Source_S3Source (c : SourceClass) :
  extends c PrivateS3Source -> extends c S3Source.
Proof.
  hierarchy c.
Qed.

(** The [bucket] getter a private group source runs: the one of
    [PrivateGroupSource], or a constant a class below it declares. *)
Lemma bucket_of_PrivateGroupSource (c : SourceClass) :
  extends c PrivateGroupSource ->
  (no_bucket_override c ->
   lookup own_bucket (prototype_chain c) = own_bucket PrivateGroupSource)
  /\ (lookup own_bucket (prototype_chain c) = own_bucket PrivateGroupSource
      \/ exists bucket_name,
           lookup own_bucket (prototype_chain c) = Some (fun _ => OK bucket_name)).
Proof.
  unfold extends.
  induction c as [| | | | | | | | | |p IH body]; simpl; intros H;
    try solve [ intuition discriminate ].
  - split; [contradiction | right; now exists "nextstrain-inrb"].
  - destruct H as [E|H]; [discriminate|].
    destruct (body_bucket body) as [b|]; simpl.
    + split; [intros [E _]; discriminate E | right; now exists b].
    + destruct (IH H) as [Hno Hl]. split; [tauto | exact Hl].
Qed.

(** A private group source that has a name has a bucket: [nextstrain-<name>],
    unless a class below [PrivateGroupSource] declares another. *)
Lemma PrivateGroupSource_has_bucket (this : SourceObj) (n : string) :
  extends (sconstructor this) PrivateGroupSource ->
  name this = OK n ->
  exists bucket_name,
    bucket this = OK (Some bucket_name)
    /\ (no_bucket_override (sconstructor this) -> bucket_name = "nextstrain-" ++ n).
Proof.
  intros Hc Hn.
  destruct (bucket_of_PrivateGroupSource _ Hc) as [Hno [Hl|(b & Hl)]].
  - exists ("nextstrain-" ++ n). unfold bucket. rewrite Hl. cbn [own_bucket].
    rewrite Hn. split; reflexivity.
  - exists b. unfold bucket. rewrite Hl. split; [reflexivity|].
    intros Hno'. rewrite (Hno Hno') in Hl. cbn [own_bucket] in Hl.
    injection Hl as Hl.
    apply (f_equal (fun getter => getter this)) in Hl.
    cbn beta in Hl. rewrite Hn in Hl. cbn [bind] in Hl. now injection Hl.
Qed.

Lemma extends_PrivateGroupSource_PrivateS3Source (c : SourceClass) :
  extends c PrivateGroupSource -> extends c PrivateS3Source.
Proof.
  hierarchy c.
Qed.

(** C5.  For a source of the access-controlled object-storage family, the
    dataset handle's [urlFor(v)] and the narrative handle's [url()] sign a
    URL for the source's bucket and the handle's base name, which is built
    from the path segments alone; they fail only as the [bucket] getter
    fails, and never return a URL built from the source's [baseUrl].  For a
    private group source, which has a name, the bucket exists (it is
    [nextstrain-<name>] unless a class declares another), so [urlFor(v)] and
    [url()] return the URL signed for that bucket and that key. *)
Theorem private_handles_return_signed_urls :
  forall (this : SourceObj) (ps : list string),
    extends (sconstructor this) PrivateS3Source ->
    (forall d v,
        dataset this ps = OK d ->
        let key :=
          String.concat "_" ps
          ++ (if String.eqb v "main" then ".json" else "_" ++ v ++ ".json") in
        Dataset_baseParts d = ps
        /\ baseNameFor d v = key
        /\ urlFor d v
           = bind (bucket this) (fun b => OK (S3_getSignedUrl "getObject" b key))
        /\ (forall b, bucket this = OK b ->
              exists bucket_name,
                b = Some bucket_name
                /\ urlFor d v
                   = OK (S3_getSignedUrl "getObject" (Some bucket_name) (baseNameFor d v)))
        /\ (forall input base, urlFor d v <> OK (URL_toString input base))
        /\ (forall n,
              extends (sconstructor this) PrivateGroupSource ->
              name this = OK n ->
              exists bucket_name,
                bucket this = OK (Some bucket_name)
                /\ (no_bucket_override (sconstructor this) ->
                    bucket_name = "nextstrain-" ++ n)
                /\ urlFor d v = OK (S3_getSignedUrl "getObject" (Some bucket_name) key)))
    /\ (forall nar,
        narrative this ps = OK nar ->
        let key := String.concat "_" ps ++ ".md" in
        Narrative_baseParts nar = ps
        /\ baseName nar = key
        /\ url nar = bind (bucket this) (fun b => OK (S3_getSignedUrl "getObject" b key))
        /\ (forall b, bucket this = OK b ->
              exists bucket_name,
                b = Some bucket_name
                /\ url nar
                   = OK (S3_getSignedUrl "getObject" (Some bucket_name) (baseName nar)))
        /\ (forall input base, url nar <> OK (URL_toString input base))
        /\ (forall n,
              extends (sconstructor this) PrivateGroupSource ->
              name this = OK n ->
              exists bucket_name,
                bucket this = OK (Some bucket_name)
                /\ (no_bucket_override (sconstructor this) ->
                    bucket_name = "nextstrain-" ++ n)
                /\ url nar = OK (S3_getSignedUrl "getObject" (Some bucket_name) key))).
Proof.
  intros this ps Hc. split.
  - intros d v Hd key.
    apply dataset_inv in Hd as (C & HC & -> & _).
    rewrite (proj2 (dataset_of_PrivateS3Source _) Hc) in HC.
    injection HC as <-.
    assert (baseNameFor (mkDataset PrivateS3Dataset this ps) v = key) as Hkey.
    { unfold baseNameFor, Dataset_baseParts, key. cbn [dconstructor dpathParts].
      rewrite join_concat. now destruct (String.eqb v "main"). }
    assert (urlFor (mkDataset PrivateS3Dataset this ps) v
            = bind (bucket this) (fun b => OK (S3_getSignedUrl "getObject" b key)))
      as Hurl.
    { unfold urlFor. cbn [dconstructor dsource]. now rewrite Hkey. }
    split; [reflexivity|]. split; [exact Hkey|]. split; [exact Hurl|].
    split; [|split].
    + intros b Hb.
      destruct (bucket_of_S3Source this (extends_PrivateS3Source_S3Source _ Hc) Hb)
        as (bn & ->).
      exists bn. split; [reflexivity|].
      now rewrite Hurl, Hb, Hkey.
    + intros input base. rewrite Hurl.
      destruct (bucket this); simpl; discriminate.
    + intros n Hgroup Hn.
      destruct (PrivateGroupSource_has_bucket this Hgroup Hn) as (bn & Hb & Hbn).
      exists bn. split; [exact Hb|]. split; [exact Hbn|].
      now rewrite Hurl, Hb.
  - intros nar Hn key.
    apply narrative_inv in Hn as (N & HN & ->).
    rewrite (proj2 (narrative_of_PrivateS3Source _) Hc) in HN.
    injection HN as <-.
    assert (baseName (mkNarrative PrivateS3Narrative this ps) = key) as Hkey.
    { unfold baseName, Narrative_baseParts, key. cbn [nconstructor npathParts].
      now rewrite join_concat. }
    assert (url (mkNarrative PrivateS3Narrative this ps)
            = bind (bucket this) (fun b => OK (S3_getSignedUrl "getObject" b key)))
      as Hurl.
    { unfold url. cbn [nconstructor nsource]. now rewrite Hkey. }
    split; [reflexivity|]. split; [exact Hkey|]. split; [exact Hurl|].
    split; [|split].
    + intros b Hb.
      destruct (bucket_of_S3Source this (extends_PrivateS3Source_S3Source _ Hc) Hb)
        as (bn & ->).
      exists bn. split; [reflexivity|].
      now rewrite Hurl, Hb, Hkey.
    + intros input base. rewrite Hurl.
      destruct (bucket this); simpl; discriminate.
    + intros n Hgroup Hname.
      destruct (PrivateGroupSource_has_bucket this Hgroup Hname) as (bn & Hb & Hbn).
      exists bn. split; [exact Hb|]. split; [exact Hbn|].
      now rewrite Hurl, Hb.
Qed.

Lemma private_handles_return_signed_urls_witness :
  urlFor (mkDataset PrivateS3Dataset inrb_drc ["ebola"; "kivu"]) "meta"
  = OK (S3_getSignedUrl "getObject" (Some "nextstrain-inrb") "ebola_kivu_meta.json")
  /\ url (mkNarrative PrivateS3Narrative inrb_drc ["ebola"; "sit-rep"])
     = OK (S3_getSignedUrl "getObject" (Some "nextstrain-inrb") "ebola_sit-rep.md")
  /\ urlFor
       (mkDataset PrivateS3Dataset
          (mkSource (Subclass PrivateGroupSource (mkBody "BlabSource" (Some "blab") None None))
             None None)
          ["zika"])
       "main"
     = OK (S3_getSignedUrl "getObject" (Some "nextstrain-blab") "zika.json")
  /\ urlFor (mkDataset PrivateS3Dataset inrb_drc ["ebola"; "kivu"]) "meta"
     <> OK (URL_toString "ebola_kivu_meta.json" "https://nextstrain-inrb.s3.amazonaws.com").
Proof.
  assert (extends (sconstructor inrb_drc) PrivateGroupSource) as Hgroup
    by (unfold extends; simpl; tauto).
  assert (name inrb_drc = OK "inrb-drc") as Hname by reflexivity.
  pose proof (extends_PrivateGroupSource_PrivateS3Source _ Hgroup) as Hc.
  split; [|split; [|split]].
  - destruct (private_handles_return_signed_urls inrb_drc ["ebola"; "kivu"] Hc)
      as (Hdataset & _).
    destruct (Hdataset (mkDataset PrivateS3Dataset inrb_drc ["ebola"; "kivu"]) "meta"
                eq_refl)
      as (_ & _ & _ & _ & _ & Hsigned).
    destruct (Hsigned "inrb-drc" Hgroup Hname) as (bn & Hb & _ & Hurl).
    cbv in Hb. injection Hb as <-. exact Hurl.
  - destruct (private_handles_return_signed_urls inrb_drc ["ebola"; "sit-rep"] Hc)
      as (_ & Hnarrative).
    destruct (Hnarrative (mkNarrative PrivateS3Narrative inrb_drc ["ebola"; "sit-rep"])
                eq_refl)
      as (_ & _ & _ & _ & _ & Hsigned).
    destruct (Hsigned "inrb-drc" Hgroup Hname) as (bn & Hb & _ & Hurl).
    cbv in Hb. injection Hb as <-. exact Hurl.
  - set (blab := mkSource
                   (Subclass PrivateGroupSource (mkBody "BlabSource" (Some "blab") None None))
                   None None).
    assert (extends (sconstructor blab) PrivateGroupSource) as Hgroup'
      by (unfold extends; simpl; tauto).
    destruct (private_handles_return_signed_urls blab ["zika"]
                (extends_PrivateGroupSource_PrivateS3Source _ Hgroup'))
      as (Hdataset & _).
    destruct (Hdataset (mkDataset PrivateS3Dataset blab ["zika"]) "main" eq_refl)
      as (_ & _ & _ & _ & _ & Hsigned).
    destruct (Hsigned "blab" Hgroup' eq_refl) as (bn & _ & Hbn & Hurl).
    rewrite (Hbn (conj eq_refl I)) in Hurl. exact Hurl.
  - destruct (private_handles_return_signed_urls inrb_drc ["ebola"; "kivu"] Hc)
      as (Hdataset & _).
    destruct (Hdataset (mkDataset PrivateS3Dataset inrb_drc ["ebola"; "kivu"]) "meta"
                eq_refl)
      as (_ & _ & _ & _ & Hne & _).
    apply Hne.
Defined.

(** ** Enumeration *)

Lemma jsonFiles_In (this : SourceObj) (files : list GitHubFile) (stem : string) :
  In (mkFile "file" (stem ++ ".json")) files ->
  Js.startsWith (stem ++ ".json") (Js.template (repoName this)) = true ->
  In (stem ++ ".json") (jsonFiles this files).
Proof.
  intros Hin Hstart. unfold jsonFiles.
  apply in_map_iff. exists (mkFile "file" (stem ++ ".json")).
  split; [reflexivity|].
  repeat (apply filter_In; split); cbn [file_name file_type].
  - exact Hin.
  - reflexivity.
  - apply endsWith_append.
  - exact Hstart.
Qed.

Lemma v2_In (jsonFiles : list string) (X : string) :
  In (X ++ ".json") jsonFiles ->
  notSidecar (X ++ ".json") = true ->
  In X (v2 jsonFiles).
Proof.
  intros Hin Hns. unfold v2.
  apply in_map_iff. exists (X ++ ".json"). split.
  - rewrite replace_suffix_append. apply append_nil_r.
  - apply filter_In. now split.
Qed.

Lemma v1_In (jsonFiles : list string) (X : string) :
  In (X ++ "_meta.json") jsonFiles ->
  In (X ++ "_tree.json") jsonFiles ->
  In X (v1 jsonFiles).
Proof.
  intros Hmeta Htree. unfold v1.
  apply in_map_iff. exists (X ++ "_meta.json"). split.
  - rewrite replace_suffix_append. apply append_nil_r.
  - apply filter_In. split.
    + apply filter_In. split; [exact Hmeta | apply endsWith_append].
    + rewrite replace_suffix_append. now apply includes_In.
Qed.

(** C7, against the claim as stated: in the repository [ncov], the dataset
    stem [ncov_a] is listed in both formats; the listing also holds
    [ncova.json], and the path [a] is returned twice. *)
Lemma colliding_stems_are_listed_twice :
  In (mkFile "file" "ncov_a.json") colliding_listing
  /\ notSidecar "ncov_a.json" = true
  /\ In (mkFile "file" "ncov_a_meta.json") colliding_listing
  /\ In (mkFile "file" "ncov_a_tree.json") colliding_listing
  /\ community_dataset_path ncov "ncov_a" = "a"
  /\ availableDatasets (github_world (OK (mkResponse true (OK colliding_listing)))) ncov
     = ([], OK (JsArray ["a"; "a"]))
  /\ count_occ string_dec ["a"; "a"] "a" <> 1%nat.
Proof.
  repeat split; try (simpl; tauto).
  vm_compute. discriminate.
Qed.

(** C7, amended.  For a community source and a listing of [auspice/] in which
    the stem [X] is present both as a non-sidecar [X.json] and as the pair
    [X_meta.json], [X_tree.json], the stem is found by both conventions, the
    union of the two result sets is de-duplicated before the paths are
    computed, and [X] is in it exactly once.  The result is the list of the
    paths of these stems, so the path of [X] is in the result exactly once
    whenever no other listed stem has the same path. *)
Theorem CommunitySource_availableDatasets_deduplicates :
  forall (w : World) (this : SourceObj) (files : list GitHubFile) (X : string),
    extends (sconstructor this) CommunitySource ->
    fetch w (CommunitySource_datasets_request this) = OK (mkResponse true (OK files)) ->
    Js.startsWith X (Js.template (repoName this)) = true ->
    In (mkFile "file" (X ++ ".json")) files ->
    notSidecar (X ++ ".json") = true ->
    In (mkFile "file" (X ++ "_meta.json")) files ->
    In (mkFile "file" (X ++ "_tree.json")) files ->
    let jsonFiles := jsonFiles this files in
    let stems := Js.Array_from_Set (v2 jsonFiles ++ v1 jsonFiles) in
    In X (v2 jsonFiles)
    /\ In X (v1 jsonFiles)
    /\ NoDup stems
    /\ count_occ string_dec stems X = 1%nat
    /\ availableDatasets w this = ([], OK (JsArray (map (community_dataset_path this) stems)))
    /\ ((forall Y, In Y stems ->
           community_dataset_path this Y = community_dataset_path this X -> Y = X) ->
        count_occ string_dec (map (community_dataset_path this) stems)
          (community_dataset_path this X) = 1%nat).
Proof.
  intros w this files X Hc Hfetch Hstart Hjson Hns Hmeta Htree jf stems.
  assert (In (X ++ ".json") jf) as Hj.
  { apply jsonFiles_In; [exact Hjson | now apply startsWith_append]. }
  assert (In (X ++ "_meta.json") jf) as Hm.
  { change "_meta.json" with ("_meta" ++ ".json"). rewrite <- append_assoc.
    apply jsonFiles_In.
    - rewrite append_assoc. exact Hmeta.
    - rewrite append_assoc. now apply startsWith_append. }
  assert (In (X ++ "_tree.json") jf) as Ht.
  { change "_tree.json" with ("_tree" ++ ".json"). rewrite <- append_assoc.
    apply jsonFiles_In.
    - rewrite append_assoc. exact Htree.
    - rewrite append_assoc. now apply startsWith_append. }
  assert (In X (v2 jf)) as H2 by now apply v2_In.
  assert (In X (v1 jf)) as H1 by now apply v1_In.
  assert (In X stems) as Hs.
  { apply Array_from_Set_In, in_or_app. now left. }
  repeat split.
  - exact H2.
  - exact H1.
  - apply Array_from_Set_NoDup.
  - apply Array_from_Set_count, in_or_app. now left.
  - unfold availableDatasets.
    rewrite (availableDatasets_of_CommunitySource _ Hc).
    unfold CommunitySource_availableDatasets.
    fold (CommunitySource_datasets_request this). rewrite Hfetch.
    reflexivity.
  - intros Hinj. apply count_occ_map_once.
    + apply Array_from_Set_NoDup.
    + exact Hs.
    + exact Hinj.
Qed.

Lemma CommunitySource_availableDatasets_deduplicates_witness :
  availableDatasets (github_world (OK (mkResponse true (OK mixed_listing)))) ncov
  = ([], OK (JsArray (map (community_dataset_path ncov) ["ncov_global"; "ncov_zika"])))
  /\ count_occ string_dec ["ncov_global"; "ncov_zika"] "ncov_global" = 1%nat.
Proof.
  assert (extends (sconstructor ncov) CommunitySource) as Hc by apply extends_refl.
  destruct (@CommunitySource_availableDatasets_deduplicates
              (github_world (OK (mkResponse true (OK mixed_listing)))) ncov
              mixed_listing "ncov_global" Hc)
    as (_ & _ & _ & Hcount & Hresult & _).
  - reflexivity.
  - reflexivity.
  - simpl; tauto.
  - reflexivity.
  - simpl; tauto.
  - simpl; tauto.
  - split; [exact Hresult | exact Hcount].
Defined.

(** C6, on the code: when the listing of the bucket fails,
    [availableDatasets()] and [availableNarratives()] of the public group
    source [seattleflu] reject with the failure instead of returning the
    empty list, as the enumerations of the GitHub-backed sources do for an
    answer that is not ok. *)
Lemma S3_listing_failure_is_propagated :
  bucket_objects failing_bucket_world (Some "nextstrain-seattleflu")
  = Throw (UpstreamError "AccessDenied")
  /\ availableDatasets failing_bucket_world seattleflu
     = ([], Throw (UpstreamError "AccessDenied"))
  /\ availableNarratives failing_bucket_world seattleflu
     = ([], Throw (UpstreamError "AccessDenied"))
  /\ snd (availableDatasets failing_bucket_world seattleflu) <> OK (JsArray []).
Proof.
  repeat split. discriminate.
Qed.

(** The answer of every enumeration to an upstream failure.  For the
    GitHub-backed sources, an answer of the contents API whose status is not
    ok makes the enumeration log a warning and return the empty list.  An
    upstream call that itself fails is not handled: a rejected [fetch] rejects
    these enumerations, and a failed bucket listing rejects
    [availableDatasets()] and [availableNarratives()] of every object-storage
    source. *)
Theorem enumeration_on_upstream_failure :
  forall (w : World) (this : SourceObj),
    (forall response,
        ok response = false ->
        (extends (sconstructor this) CoreSource ->
         fetch w (CoreSource_narratives_request this) = OK response ->
         exists n,
           name this = OK n
           /\ availableNarratives w this
              = (["Error fetching available narratives from GitHub for source " ++ n],
                 OK []))
        /\ (extends (sconstructor this) CommunitySource ->
            fetch w (CommunitySource_datasets_request this) = OK response ->
            exists n,
              name this = OK n
              /\ availableDatasets w this
                 = (["Error fetching available datasets from GitHub for source " ++ n],
                    OK (JsArray [])))
        /\ (extends (sconstructor this) CommunitySource ->
            fetch w (CommunitySource_narratives_request this) = OK response ->
            exists n,
              name this = OK n
              /\ availableNarratives w this
                 = (["Error fetching available narratives from GitHub for source " ++ n],
                    OK [])))
    /\ (forall e,
        (extends (sconstructor this) CoreSource ->
         fetch w (CoreSource_narratives_request this) = Throw e ->
         availableNarratives w this = ([], Throw e))
        /\ (extends (sconstructor this) CommunitySource ->
            fetch w (CommunitySource_datasets_request this) = Throw e ->
            availableDatasets w this = ([], Throw e))
        /\ (extends (sconstructor this) CommunitySource ->
            fetch w (CommunitySource_narratives_request this) = Throw e ->
            availableNarratives w this = ([], Throw e))
        /\ (extends (sconstructor this) S3Source ->
            forall b,
              bucket this = OK b ->
              bucket_objects w b = Throw e ->
              availableDatasets w this = ([], Throw e)
              /\ availableNarratives w this = ([], Throw e))).
Proof.
  intros w this. split.
  - intros response Hok. split; [|split]; intros Hc Hfetch.
    + destruct (name_of_GitHub_source (sconstructor this) (or_introl Hc)) as (n & Hn).
      exists n. split; [exact Hn|].
      unfold availableNarratives.
      rewrite (availableNarratives_of_CoreSource _ Hc).
      unfold CoreSource_availableNarratives.
      fold (CoreSource_narratives_request this).
      unfold name. now rewrite Hfetch; cbn; rewrite Hok, Hn.
    + destruct (name_of_GitHub_source (sconstructor this) (or_intror Hc)) as (n & Hn).
      exists n. split; [exact Hn|].
      unfold availableDatasets.
      rewrite (availableDatasets_of_CommunitySource _ Hc).
      unfold CommunitySource_availableDatasets.
      fold (CommunitySource_datasets_request this).
      unfold name. now rewrite Hfetch; cbn; rewrite Hok, Hn.
    + destruct (name_of_GitHub_source (sconstructor this) (or_intror Hc)) as (n & Hn).
      exists n. split; [exact Hn|].
      unfold availableNarratives.
      rewrite (availableNarratives_of_CommunitySource _ Hc).
      unfold CommunitySource_availableNarratives.
      fold (CommunitySource_narratives_request this).
      unfold name. now rewrite Hfetch; cbn; rewrite Hok, Hn.
  - intros e. split; [|split; [|split]].
    + intros Hc Hfetch. unfold availableNarratives.
      rewrite (availableNarratives_of_CoreSource _ Hc).
      unfold CoreSource_availableNarratives.
      fold (CoreSource_narratives_request this).
      now rewrite Hfetch.
    + intros Hc Hfetch. unfold availableDatasets.
      rewrite (availableDatasets_of_CommunitySource _ Hc).
      unfold CommunitySource_availableDatasets.
      fold (CommunitySource_datasets_request this).
      now rewrite Hfetch.
    + intros Hc Hfetch. unfold availableNarratives.
      rewrite (availableNarratives_of_CommunitySource _ Hc).
      unfold CommunitySource_availableNarratives.
      fold (CommunitySource_narratives_request this).
      now rewrite Hfetch.
    + intros Hc b Hb Hlist. split.
      * unfold availableDatasets.
        rewrite (availableDatasets_of_S3Source _ Hc).
        unfold S3Source_availableDatasets, _listObjects, S3_listObjectsV2.
        now rewrite Hb; cbn; rewrite Hlist.
      * unfold availableNarratives.
        rewrite (availableNarratives_of_S3Source _ Hc).
        unfold S3Source_availableNarratives, _listObjects, S3_listObjectsV2.
        now rewrite Hb; cbn; rewrite Hlist.
Qed.

Lemma enumeration_on_upstream_failure_witness :
  (exists n,
      name core = OK n
      /\ availableNarratives (github_world (OK (mkResponse false (OK [])))) core
         = (["Error fetching available narratives from GitHub for source " ++ n], OK []))
  /\ availableDatasets failing_bucket_world inrb_drc
     = ([], Throw (UpstreamError "AccessDenied")).
Proof.
  split.
  - destruct (enumeration_on_upstream_failure
                (github_world (OK (mkResponse false (OK [])))) core) as (Hstatus & _).
    assert (ok (mkResponse false (OK [])) = false) as Hok by reflexivity.
    destruct (Hstatus _ Hok) as (Hcore & _).
    apply Hcore; [apply extends_refl | reflexivity].
  - destruct (enumeration_on_upstream_failure failing_bucket_world inrb_drc)
      as (_ & Hreject).
    destruct (Hreject (UpstreamError "AccessDenied")) as (_ & _ & _ & Hs3).
    apply (Hs3 ltac:(unfold extends; simpl; tauto) (Some "nextstrain-inrb"));
      reflexivity.
Defined.

(** One request returns the first [MaxKeys] objects of the bucket, and
    [_listObjects] returns what that one request returned. *)
Lemma listObjects_is_first_page (w : World) (this : SourceObj) (b : option string)
    (objects : list S3Object) :
  bucket this = OK b ->
  bucket_objects w b = OK objects ->
  _listObjects w this = ([], OK (firstn MaxKeys objects)).
Proof.
  intros Hb Hobjects. unfold _listObjects, S3_listObjectsV2.
  rewrite Hb. cbn. now rewrite Hobjects.
Qed.

(** A bucket that fits in one page is listed completely. *)
Lemma listObjects_small_bucket (w : World) (this : SourceObj) (b : option string)
    (objects : list S3Object) :
  bucket this = OK b ->
  bucket_objects w b = OK objects ->
  (List.length objects <= MaxKeys)%nat ->
  _listObjects w this = ([], OK objects).
Proof.
  intros Hb Hobjects Hlen.
  rewrite (listObjects_is_first_page w this Hb Hobjects).
  now rewrite firstn_all2.
Qed.

(** Of a bucket that does not fit in one page, exactly [MaxKeys] objects are
    returned. *)
Lemma listObjects_large_bucket (w : World) (this : SourceObj) (b : option string)
    (objects : list S3Object) :
  bucket this = OK b ->
  bucket_objects w b = OK objects ->
  (MaxKeys < List.length objects)%nat ->
  exists page,
    _listObjects w this = ([], OK page)
    /\ List.length page = MaxKeys
    /\ page <> objects.
Proof.
  intros Hb Hobjects Hlen.
  exists (firstn MaxKeys objects).
  split; [now apply listObjects_is_first_page with (b := b)|].
  assert (List.length (firstn MaxKeys objects) = MaxKeys) as Hpage
    by (apply firstn_length_le; lia).
  split; [exact Hpage|].
  intros E. rewrite E in Hpage. lia.
Qed.

(** C1, on the code: the bucket of the public group source [seattleflu] holds
    1001 objects, the last of them the dataset [zika_tree.json].  The one
    listing request returns 1000 objects and reports that the listing is
    truncated; [availableDatasets()] returns the dataset of the first page
    only. *)
Theorem availableDatasets_stops_at_first_page :
  List.length large_bucket = 1001%nat
  /\ In (mkObject "zika_tree.json") large_bucket
  /\ (exists page,
         S3_listObjectsV2 large_bucket_world (Some "nextstrain-seattleflu") None = OK page
         /\ List.length (Contents page) = 1000%nat
         /\ IsTruncated page = true
         /\ ~ In (mkObject "zika_tree.json") (Contents page))
  /\ availableDatasets large_bucket_world seattleflu = ([], OK (JsArray ["flu"]))
  /\ ~ In "zika" ["flu"].
Proof.
  split; [vm_compute; reflexivity|].
  split.
  { unfold large_bucket. apply in_or_app. right. now left. }
  split.
  { eexists. split; [reflexivity|].
    split; [vm_compute; reflexivity|].
    split; [vm_compute; reflexivity|].
    intros H. apply (in_map Key) in H. apply includes_In in H.
    vm_compute in H. discriminate H. }
  split; [vm_compute; reflexivity|].
  simpl. intuition discriminate.
Qed.

(** * Further properties of the module *)

(** ** Underscores and slashes *)

Lemma split_not_nil (sep : ascii) (s : string) : Js.split sep s <> [].
Proof.
  destruct s as [|c s]; simpl; [discriminate|].
  destruct (Ascii.eqb c sep); [discriminate|].
  destruct (Js.split sep s); discriminate.
Qed.

Lemma concat_cons (sep x : string) (l : list string) :
  l <> [] -> String.concat sep (x :: l) = x ++ sep ++ String.concat sep l.
Proof.
  destruct l; [contradiction | reflexivity].
Qed.

(** Splitting on one character and joining with another replaces the one by
    the other. *)
Lemma join_split_replace_char (from to : ascii) (s : string) :
  Js.join (String to "") (Js.split from s) = replace_char from to s.
Proof.
  rewrite join_concat.
  induction s as [|c s IH]; [reflexivity|].
  cbn [Js.split replace_char].
  destruct (Ascii.eqb c from).
  - rewrite concat_cons by apply split_not_nil. now rewrite IH.
  - destruct (Js.split from s) as [|h t] eqn:E.
    + now apply split_not_nil in E.
    + rewrite <- IH. destruct t; reflexivity.
Qed.

Lemma replace_char_append (from to : ascii) (s t : string) :
  replace_char from to (s ++ t) = replace_char from to s ++ replace_char from to t.
Proof.
  induction s as [|c s IH]; simpl; [reflexivity | now rewrite IH].
Qed.

Lemma replace_char_absent (from to : ascii) (s : string) :
  occurs from s = false -> replace_char from to s = s.
Proof.
  induction s as [|c s IH]; simpl; [reflexivity|].
  intros H. apply orb_false_iff in H as [Hc Hs].
  now rewrite Hc, IH.
Qed.

(** A string without the new character is the image of itself only. *)
Lemma replace_char_inv (from to : ascii) (s p : string) :
  occurs to p = false -> replace_char from to s = p -> s = p.
Proof.
  revert p. induction s as [|c s IH]; intros [|d p] Hp E; simpl in *;
    try discriminate; [reflexivity|].
  apply orb_false_iff in Hp as [Hd Hp].
  injection E as Ec Es.
  f_equal; [|now apply IH].
  destruct (Ascii.eqb_spec c from) as [->|_]; [|exact Ec].
  subst d. now rewrite Ascii.eqb_refl in Hd.
Qed.

Lemma replace_char_concat (from to : ascii) (ps : list string) :
  replace_char from to (String.concat (String from "") ps)
  = String.concat (String to "") (map (replace_char from to) ps).
Proof.
  induction ps as [|p ps IH]; [reflexivity|].
  destruct ps as [|q ps]; [reflexivity|].
  change (String.concat (String from "") (p :: q :: ps))
    with (p ++ String from "" ++ String.concat (String from "") (q :: ps)).
  change (String.concat (String to "") (map (replace_char from to) (p :: q :: ps)))
    with (replace_char from to p ++ String to ""
          ++ String.concat (String to "") (map (replace_char from to) (q :: ps))).
  rewrite !replace_char_append, IH. simpl. now rewrite Ascii.eqb_refl.
Qed.

Lemma plain_segments_unchanged (ps : list string) :
  plain_segments ps -> map (replace_char "_" "/") ps = ps.
Proof.
  induction 1 as [|p ps Hp _ IH]; simpl; [reflexivity|].
  now rewrite IH, replace_char_absent.
Qed.

(** The name built from plain segments is read back as their path. *)
Lemma path_of_joined_segments (ps : list string) :
  plain_segments ps ->
  Js.join "/" (Js.split "_" (Js.join "_" ps)) = Js.join "/" ps.
Proof.
  intros Hps.
  rewrite join_split_replace_char, !join_concat, replace_char_concat.
  now rewrite plain_segments_unchanged.
Qed.

Lemma prefix_append_self (r t : string) : String.prefix r (r ++ t) = true.
Proof.
  induction r as [|c r IH]; simpl.
  - now destruct t.
  - destruct (ascii_dec c c); [exact IH | contradiction].
Qed.

Lemma drop_append_self (r t : string) : Js.drop (String.length r) (r ++ t) = t.
Proof.
  induction r as [|c r IH]; simpl; [reflexivity | exact IH].
Qed.

(** Removing the first occurrence of a string from what starts with it
    removes that prefix. *)
Lemma replace_own_prefix (r t : string) : Js.replace r "" (r ++ t) = t.
Proof.
  destruct r as [|c r].
  - simpl. destruct t; reflexivity.
  - change (String c r ++ t) with (String c (r ++ t)).
    cbn [Js.replace].
    assert (String.prefix (String c r) (String c (r ++ t)) = true) as ->
      by apply (prefix_append_self (String c r) t).
    exact (drop_append_self (String c r) t).
Qed.

Lemma In_Key (k : string) (objects : list S3Object) :
  In k (map Key objects) <-> In (mkObject k) objects.
Proof.
  rewrite in_map_iff. split.
  - intros ([k'] & E & H). simpl in E. now subst.
  - intros H. now exists (mkObject k).
Qed.

(** ** Enumeration of object-storage sources *)

(** What the filter-and-map pipelines over file names keep: the names with
    the suffix, read as paths. *)
Lemma suffix_pipeline_In (suf : string) (names : list string) (p : string) :
  In p (map (fun file => Js.join "/" (Js.split "_" (Js.replace_suffix suf "" file)))
          (filter (fun file => Js.endsWith file suf) names))
  <-> exists stem, In (stem ++ suf) names /\ p = replace_char "_" "/" stem.
Proof.
  rewrite in_map_iff. split.
  - intros (file & <- & Hfile).
    apply filter_In in Hfile as (Hin & Hends).
    apply endsWith_iff in Hends as (stem & ->).
    exists stem. split; [exact Hin|].
    now rewrite replace_suffix_append, append_nil_r, join_split_replace_char.
  - intros (stem & Hin & ->).
    exists (stem ++ suf). split.
    + now rewrite replace_suffix_append, append_nil_r, join_split_replace_char.
    + apply filter_In. split; [exact Hin | apply endsWith_append].
Qed.

Lemma S3Source_availableDatasets_small_bucket (w : World) (this : SourceObj)
    (b : option string) (objects : list S3Object) :
  extends (sconstructor this) S3Source ->
  bucket this = OK b ->
  bucket_objects w b = OK objects ->
  (List.length objects <= MaxKeys)%nat ->
  availableDatasets w this
  = ([], OK (JsArray
               (map (fun file =>
                       Js.join "/" (Js.split "_" (Js.replace_suffix "_tree.json" "" file)))
                  (filter (fun file => Js.endsWith file "_tree.json") (map Key objects))))).
Proof.
  intros Hc Hb Hobjects Hlen.
  unfold availableDatasets. rewrite (availableDatasets_of_S3Source _ Hc).
  unfold S3Source_availableDatasets.
  now rewrite (listObjects_small_bucket w this Hb Hobjects Hlen).
Qed.

Lemma S3Source_availableNarratives_small_bucket (w : World) (this : SourceObj)
    (b : option string) (objects : list S3Object) :
  extends (sconstructor this) S3Source ->
  bucket this = OK b ->
  bucket_objects w b = OK objects ->
  (List.length objects <= MaxKeys)%nat ->
  availableNarratives w this
  = ([], OK (map (fun file =>
                    Js.join "/" (Js.split "_" (Js.replace_suffix ".md" "" file)))
               (filter (fun file => Js.endsWith file ".md") (map Key objects)))).
Proof.
  intros Hc Hb Hobjects Hlen.
  unfold availableNarratives. rewrite (availableNarratives_of_S3Source _ Hc).
  unfold S3Source_availableNarratives.
  now rewrite (listObjects_small_bucket w this Hb Hobjects Hlen).
Qed.

(** X1.  For an object-storage source whose bucket fits in one page of the
    listing, [availableDatasets()] resolves without a warning, and a path is
    in the result exactly when the bucket holds a key [stem_tree.json] whose
    stem, with every underscore turned into a slash, is that path. *)
Theorem S3Source_availableDatasets_spec :
  forall (w : World) (this : SourceObj) (b : option string) (objects : list S3Object),
    extends (sconstructor this) S3Source ->
    bucket this = OK b ->
    bucket_objects w b = OK objects ->
    (List.length objects <= MaxKeys)%nat ->
    exists result,
      availableDatasets w this = ([], OK (JsArray result))
      /\ forall p,
           In p result <->
           exists stem,
             In (mkObject (stem ++ "_tree.json")) objects
             /\ p = replace_char "_" "/" stem.
Proof.
  intros w this b objects Hc Hb Hobjects Hlen.
  eexists. split.
  - exact (S3Source_availableDatasets_small_bucket w this Hc Hb Hobjects Hlen).
  - intros p. rewrite suffix_pipeline_In.
    split; intros (stem & Hin & ->); exists stem; (split; [|reflexivity]);
      now apply In_Key.
Qed.

Lemma S3Source_availableDatasets_spec_witness :
  exists result,
    availableDatasets
      (mkWorld (fun _ => Throw (UpstreamError "fetch"))
         (fun _ => OK [mkObject "flu_seasonal_h3n2_tree.json"; mkObject "flu_seasonal_h3n2_meta.json"])
         None)
      seattleflu = ([], OK (JsArray result))
    /\ In "flu/seasonal/h3n2" result.
Proof.
  destruct (@S3Source_availableDatasets_spec
              (mkWorld (fun _ => Throw (UpstreamError "fetch"))
                 (fun _ => OK [mkObject "flu_seasonal_h3n2_tree.json";
                               mkObject "flu_seasonal_h3n2_meta.json"])
                 None)
              seattleflu (Some "nextstrain-seattleflu")
              [mkObject "flu_seasonal_h3n2_tree.json"; mkObject "flu_seasonal_h3n2_meta.json"])
    as (result & Hresult & Hin).
  - unfold extends. simpl. tauto.
  - reflexivity.
  - reflexivity.
  - unfold MaxKeys. simpl. lia.
  - exists result. split; [exact Hresult|].
    apply Hin. exists "flu_seasonal_h3n2". split; [simpl; tauto | reflexivity].
Defined.

(** X2.  For an object-storage source whose bucket fits in one page of the
    listing, [availableNarratives()] resolves without a warning, and a path is
    in the result exactly when the bucket holds a key [stem.md] whose stem,
    with every underscore turned into a slash, is that path. *)
Theorem S3Source_availableNarratives_spec :
  forall (w : World) (this : SourceObj) (b : option string) (objects : list S3Object),
    extends (sconstructor this) S3Source ->
    bucket this = OK b ->
    bucket_objects w b = OK objects ->
    (List.length objects <= MaxKeys)%nat ->
    exists result,
      availableNarratives w this = ([], OK result)
      /\ forall p,
           In p result <->
           exists stem,
             In (mkObject (stem ++ ".md")) objects
             /\ p = replace_char "_" "/" stem.
Proof.
  intros w this b objects Hc Hb Hobjects Hlen.
  eexists. split.
  - exact (S3Source_availableNarratives_small_bucket w this Hc Hb Hobjects Hlen).
  - intros p. rewrite suffix_pipeline_In.
    split; intros (stem & Hin & ->); exists stem; (split; [|reflexivity]);
      now apply In_Key.
Qed.

Lemma S3Source_availableNarratives_spec_witness :
  exists result,
    availableNarratives
      (mkWorld (fun _ => Throw (UpstreamError "fetch"))
         (fun _ => OK [mkObject "ebola_sit-rep.md"; mkObject "ebola_tree.json"])
         None)
      inrb_drc = ([], OK result)
    /\ In "ebola/sit-rep" result.
Proof.
  destruct (@S3Source_availableNarratives_spec
              (mkWorld (fun _ => Throw (UpstreamError "fetch"))
                 (fun _ => OK [mkObject "ebola_sit-rep.md"; mkObject "ebola_tree.json"])
                 None)
              inrb_drc (Some "nextstrain-inrb")
              [mkObject "ebola_sit-rep.md"; mkObject "ebola_tree.json"])
    as (result & Hresult & Hin).
  - unfold extends. simpl. tauto.
  - reflexivity.
  - reflexivity.
  - unfold MaxKeys. simpl. lia.
  - exists result. split; [exact Hresult|].
    apply Hin. exists "ebola_sit-rep". split; [simpl; tauto | reflexivity].
Defined.

(** ** Names written by the handles, read back by the enumerations *)

Lemma replace_char_joined_segments (ps : list string) :
  plain_segments ps ->
  replace_char "_" "/" (Js.join "_" ps) = Js.join "/" ps.
Proof.
  intros Hps. rewrite <- (path_of_joined_segments Hps).
  symmetry. apply join_split_replace_char.
Qed.

Lemma dataset_of_S3Source (c : SourceClass) :
  extends c S3Source ->
  lookup own_dataset (prototype_chain c) = Some Dataset
  \/ lookup own_dataset (prototype_chain c) = Some PrivateS3Dataset.
Proof.
  unfold extends.
  induction c; simpl; auto; intuition discriminate.
Qed.

Lemma narrative_of_S3Source (c : SourceClass) :
  extends c S3Source ->
  lookup own_narrative (prototype_chain c) = Some Narrative
  \/ lookup own_narrative (prototype_chain c) = Some PrivateS3Narrative.
Proof.
  unfold extends.
  induction c; simpl; auto; intuition discriminate.
Qed.

(** X3.  For an object-storage source whose bucket fits in one page, the
    dataset handle of plain path segments (none contains an underscore) and
    the enumeration agree: if the bucket holds the object the handle names for
    the [tree] variant, [availableDatasets()] lists the segments joined by
    slashes. *)
Theorem S3_dataset_is_enumerated :
  forall (w : World) (this : SourceObj) (b : option string) (objects : list S3Object)
         (ps : list string) (d : DatasetObj),
    extends (sconstructor this) S3Source ->
    bucket this = OK b ->
    bucket_objects w b = OK objects ->
    (List.length objects <= MaxKeys)%nat ->
    plain_segments ps ->
    dataset this ps = OK d ->
    In (mkObject (baseNameFor d "tree")) objects ->
    exists result,
      availableDatasets w this = ([], OK (JsArray result))
      /\ In (Js.join "/" ps) result.
Proof.
  intros w this b objects ps d Hc Hb Hobjects Hlen Hps Hd Hin.
  eexists. split.
  { exact (S3Source_availableDatasets_small_bucket w this Hc Hb Hobjects Hlen). }
  apply suffix_pipeline_In. exists (Js.join "_" ps).
  rewrite In_Key.
  apply dataset_inv in Hd as (C & HC & -> & _).
  assert (Dataset_baseParts (mkDataset C this ps) = ps) as Hparts.
  { destruct (dataset_of_S3Source _ Hc) as [E|E]; rewrite E in HC;
      injection HC as <-; reflexivity. }
  split.
  - unfold baseNameFor in Hin. rewrite Hparts in Hin. exact Hin.
  - symmetry. now apply replace_char_joined_segments.
Qed.

Lemma S3_dataset_is_enumerated_witness :
  exists result,
    availableDatasets
      (mkWorld (fun _ => Throw (UpstreamError "fetch"))
         (fun _ => OK [mkObject "ebola_kivu_meta.json"; mkObject "ebola_kivu_tree.json"])
         None)
      inrb_drc = ([], OK (JsArray result))
    /\ In "ebola/kivu" result.
Proof.
  apply (@S3_dataset_is_enumerated
           (mkWorld (fun _ => Throw (UpstreamError "fetch"))
              (fun _ => OK [mkObject "ebola_kivu_meta.json"; mkObject "ebola_kivu_tree.json"])
              None)
           inrb_drc (Some "nextstrain-inrb")
           [mkObject "ebola_kivu_meta.json"; mkObject "ebola_kivu_tree.json"]
           ["ebola"; "kivu"]
           (mkDataset PrivateS3Dataset inrb_drc ["ebola"; "kivu"])).
  - unfold extends. simpl. tauto.
  - reflexivity.
  - reflexivity.
  - unfold MaxKeys. simpl. lia.
  - repeat constructor.
  - reflexivity.
  - simpl. tauto.
Defined.

(** X4.  For an object-storage source whose bucket fits in one page, if the
    bucket holds the object a narrative handle of plain path segments names,
    [availableNarratives()] lists the segments joined by slashes. *)
Theorem S3_narrative_is_enumerated :
  forall (w : World) (this : SourceObj) (b : option string) (objects : list S3Object)
         (ps : list string) (n : NarrativeObj),
    extends (sconstructor this) S3Source ->
    bucket this = OK b ->
    bucket_objects w b = OK objects ->
    (List.length objects <= MaxKeys)%nat ->
    plain_segments ps ->
    narrative this ps = OK n ->
    In (mkObject (baseName n)) objects ->
    exists result,
      availableNarratives w this = ([], OK result)
      /\ In (Js.join "/" ps) result.
Proof.
  intros w this b objects ps n Hc Hb Hobjects Hlen Hps Hn Hin.
  eexists. split.
  { exact (S3Source_availableNarratives_small_bucket w this Hc Hb Hobjects Hlen). }
  apply suffix_pipeline_In. exists (Js.join "_" ps).
  rewrite In_Key.
  apply narrative_inv in Hn as (N & HN & ->).
  assert (Narrative_baseParts (mkNarrative N this ps) = ps) as Hparts.
  { destruct (narrative_of_S3Source _ Hc) as [E|E]; rewrite E in HN;
      injection HN as <-; reflexivity. }
  split.
  - unfold baseName in Hin. rewrite Hparts in Hin. exact Hin.
  - symmetry. now apply replace_char_joined_segments.
Qed.

Lemma S3_narrative_is_enumerated_witness :
  exists result,
    availableNarratives
      (mkWorld (fun _ => Throw (UpstreamError "fetch"))
         (fun _ => OK [mkObject "flu_2019.md"])
         None)
      seattleflu = ([], OK result)
    /\ In "flu/2019" result.
Proof.
  apply (@S3_narrative_is_enumerated
           (mkWorld (fun _ => Throw (UpstreamError "fetch"))
              (fun _ => OK [mkObject "flu_2019.md"])
              None)
           seattleflu (Some "nextstrain-seattleflu")
           [mkObject "flu_2019.md"] ["flu"; "2019"]
           (mkNarrative Narrative seattleflu ["flu"; "2019"])).
  - unfold extends. simpl. tauto.
  - reflexivity.
  - reflexivity.
  - unfold MaxKeys. simpl. lia.
  - repeat constructor.
  - reflexivity.
  - simpl. tauto.
Defined.

(** ** Enumeration of GitHub-backed sources *)

Lemma append_inj_l (s s' t : string) : s ++ t = s' ++ t -> s = s'.
Proof.
  intros E.
  assert (Js.strip_suffix t (s ++ t) = Js.strip_suffix t (s' ++ t)) as H by now rewrite E.
  rewrite !strip_suffix_append in H. now injection H.
Qed.

Lemma jsonFiles_iff (this : SourceObj) (files : list GitHubFile) (f : string) :
  In f (jsonFiles this files) <->
  In (mkFile "file" f) files
  /\ Js.endsWith f ".json" = true
  /\ Js.startsWith f (Js.template (repoName this)) = true.
Proof.
  unfold jsonFiles. rewrite in_map_iff. split.
  - intros ([type name] & E & H). cbn [file_name] in E. subst name.
    repeat (apply filter_In in H as [H ?]). cbn [file_name file_type] in *.
    match goal with T : String.eqb type _ = true |- _ => apply String.eqb_eq in T; subst type end.
    tauto.
  - intros (Hin & Hends & Hstarts).
    exists (mkFile "file" f). split; [reflexivity|].
    repeat (apply filter_In; split); cbn [file_name file_type]; auto.
Qed.

Lemma v2_iff (this : SourceObj) (files : list GitHubFile) (X : string) :
  In X (v2 (jsonFiles this files)) <->
  In (X ++ ".json") (jsonFiles this files) /\ notSidecar (X ++ ".json") = true.
Proof.
  split.
  - unfold v2. rewrite in_map_iff. intros (f & <- & H).
    apply filter_In in H as [Hin Hns].
    pose proof (proj1 (jsonFiles_iff this files f) Hin) as (_ & Hends & _).
    apply endsWith_iff in Hends as (stem & ->).
    rewrite replace_suffix_append, append_nil_r. tauto.
  - intros [Hin Hns]. now apply v2_In.
Qed.

Lemma v1_iff (jsonFiles : list string) (X : string) :
  In X (v1 jsonFiles) <->
  In (X ++ "_meta.json") jsonFiles /\ In (X ++ "_tree.json") jsonFiles.
Proof.
  split.
  - unfold v1. rewrite in_map_iff. intros (f & <- & H).
    apply filter_In in H as [H Hincl].
    apply filter_In in H as [Hin Hends].
    apply endsWith_iff in Hends as (stem & ->).
    rewrite replace_suffix_append in Hincl. apply includes_In in Hincl.
    rewrite replace_suffix_append, append_nil_r. tauto.
  - intros [Hmeta Htree]. now apply v1_In.
Qed.

(** X5.  When the contents API answers the listing of [auspice/] with the
    entries [files], [availableDatasets()] of a community source resolves
    without a warning to the paths of a duplicate-free list of stems.  A stem
    [X] is in that list exactly when [X.json] is listed and is not a sidecar
    file, or both [X_meta.json] and [X_tree.json] are listed; listed means a
    regular file whose name starts with the repository name.  A lone
    [_meta.json] or [_tree.json] file, a directory, and a file of another
    prefix contribute nothing. *)
Theorem CommunitySource_availableDatasets_stems :
  forall (w : World) (this : SourceObj) (files : list GitHubFile),
    extends (sconstructor this) CommunitySource ->
    fetch w (CommunitySource_datasets_request this) = OK (mkResponse true (OK files)) ->
    let listed f :=
      In (mkFile "file" f) files
      /\ Js.startsWith f (Js.template (repoName this)) = true in
    exists stems,
      availableDatasets w this = ([], OK (JsArray (map (community_dataset_path this) stems)))
      /\ NoDup stems
      /\ forall X,
           In X stems <->
           (listed (X ++ ".json") /\ notSidecar (X ++ ".json") = true)
           \/ (listed (X ++ "_meta.json") /\ listed (X ++ "_tree.json")).
Proof.
  intros w this files Hc Hfetch listed.
  exists (Js.Array_from_Set (v2 (jsonFiles this files) ++ v1 (jsonFiles this files))).
  split; [|split].
  - unfold availableDatasets.
    rewrite (availableDatasets_of_CommunitySource _ Hc).
    unfold CommunitySource_availableDatasets.
    fold (CommunitySource_datasets_request this). now rewrite Hfetch.
  - apply Array_from_Set_NoDup.
  - intros X.
    assert (forall suffix, In ((X ++ suffix) ++ ".json") (jsonFiles this files)
                           <-> listed ((X ++ suffix) ++ ".json")) as Hlisted.
    { intros suffix. rewrite jsonFiles_iff. unfold listed.
      pose proof (endsWith_append (X ++ suffix) ".json"). tauto. }
    rewrite Array_from_Set_In, in_app_iff, v2_iff, v1_iff.
    pose proof (Hlisted "") as H0. rewrite append_nil_r in H0.
    pose proof (Hlisted "_meta") as H1. rewrite append_assoc in H1.
    pose proof (Hlisted "_tree") as H2. rewrite append_assoc in H2.
    change ("_meta" ++ ".json") with "_meta.json" in H1.
    change ("_tree" ++ ".json") with "_tree.json" in H2.
    tauto.
Qed.

Lemma CommunitySource_availableDatasets_stems_witness :
  exists stems,
    availableDatasets (github_world (OK (mkResponse true (OK mixed_listing)))) ncov
    = ([], OK (JsArray (map (community_dataset_path ncov) stems)))
    /\ In "ncov_zika" stems.
Proof.
  destruct (@CommunitySource_availableDatasets_stems
              (github_world (OK (mkResponse true (OK mixed_listing)))) ncov mixed_listing)
    as (stems & Hresult & _ & Hstems).
  - apply extends_refl.
  - reflexivity.
  - exists stems. split; [exact Hresult|].
    apply Hstems. right. simpl. tauto.
Defined.

(** The part of a community file name that follows the repository name. *)
Lemma concat_after_first (x : string) (ps : list string) :
  String.concat "_" (x :: ps)
  = x ++ match ps with
         | [] => ""
         | _ :: _ => "_" ++ String.concat "_" ps
         end.
Proof.
  destruct ps; simpl; [now rewrite append_nil_r | reflexivity].
Qed.

Lemma path_after_repoName (ps : list string) :
  plain_segments ps ->
  Js.join "/"
    (Js.split "_"
       (Js.strip_leading_underscore
          match ps with
          | [] => ""
          | _ :: _ => "_" ++ String.concat "_" ps
          end))
  = Js.join "/" ps.
Proof.
  intros Hps. destruct ps as [|p ps]; [reflexivity|].
  cbn [append Js.strip_leading_underscore].
  rewrite <- join_concat. now apply path_of_joined_segments.
Qed.

(** X6.  The dataset handle of a community source and the enumeration agree.
    For plain path segments [ps], the main file of the handle is
    [auspice/<f>] for a file name [f]; if the listing of [auspice/] holds [f]
    as a regular file and [f] does not end in a sidecar suffix,
    [availableDatasets()] lists [ps] joined by slashes. *)
Theorem CommunityDataset_is_enumerated :
  forall (w : World) (this : SourceObj) (files : list GitHubFile) (ps : list string)
         (d : DatasetObj),
    extends (sconstructor this) CommunitySource ->
    fetch w (CommunitySource_datasets_request this) = OK (mkResponse true (OK files)) ->
    plain_segments ps ->
    dataset this ps = OK d ->
    exists f,
      baseNameFor d "main" = "auspice/" ++ f
      /\ (In (mkFile "file" f) files ->
          notSidecar f = true ->
          exists result,
            availableDatasets w this = ([], OK (JsArray result))
            /\ In (Js.join "/" ps) result).
Proof.
  intros w this files ps d Hc Hfetch Hps Hd.
  apply dataset_inv in Hd as (C & HC & -> & _).
  rewrite (proj2 (dataset_of_CommunitySource _) Hc) in HC. injection HC as <-.
  set (r := Js.template (repoName this)).
  set (rest := match ps with
               | [] => ""
               | _ :: _ => "_" ++ String.concat "_" ps
               end).
  exists ((r ++ rest) ++ ".json"). split.
  - unfold baseNameFor, Dataset_baseParts. cbn [dconstructor dsource dpathParts String.eqb Ascii.eqb Bool.eqb].
    rewrite join_concat, concat_after_first. fold r rest.
    now rewrite !append_assoc.
  - intros Hin Hns. eexists. split.
    + unfold availableDatasets.
      rewrite (availableDatasets_of_CommunitySource _ Hc).
      unfold CommunitySource_availableDatasets.
      fold (CommunitySource_datasets_request this). rewrite Hfetch. reflexivity.
    + assert (community_dataset_path this (r ++ rest) = Js.join "/" ps) as <-.
      { unfold community_dataset_path. fold r.
        rewrite replace_own_prefix. now apply path_after_repoName. }
      apply in_map, Array_from_Set_In, in_or_app. left.
      apply v2_In; [|exact Hns].
      apply jsonFiles_In; [exact Hin|].
      fold r. unfold Js.startsWith. rewrite append_assoc. apply prefix_append_self.
Qed.

Lemma CommunityDataset_is_enumerated_witness :
  exists result,
    availableDatasets (github_world (OK (mkResponse true (OK mixed_listing)))) ncov
    = ([], OK (JsArray result))
    /\ In "global" result.
Proof.
  destruct (@CommunityDataset_is_enumerated
              (github_world (OK (mkResponse true (OK mixed_listing)))) ncov mixed_listing
              ["global"] (mkDataset CommunityDataset ncov ["global"]))
    as (f & Hname & Hlisted).
  - apply extends_refl.
  - reflexivity.
  - repeat constructor.
  - reflexivity.
  - assert (f = "ncov_global.json") as -> by (now injection Hname).
    apply Hlisted; [simpl; tauto | reflexivity].
Defined.

Lemma narrative_of_CommunitySource (c : SourceClass) :
  extends c CommunitySource ->
  lookup own_narrative (prototype_chain c) = Some CommunityNarrative.
Proof.
  hierarchy c.
Qed.

(** X7.  The narrative handle of a community source and the enumeration
    agree.  For plain path segments [ps], the file of the handle is
    [narratives/<f>] for a file name [f]; if the listing of [narratives/]
    holds [f] as a regular file and [f] is not [README.md],
    [availableNarratives()] lists [ps] joined by slashes. *)
Theorem CommunityNarrative_is_enumerated :
  forall (w : World) (this : SourceObj) (files : list GitHubFile) (ps : list string)
         (n : NarrativeObj),
    extends (sconstructor this) CommunitySource ->
    fetch w (CommunitySource_narratives_request this) = OK (mkResponse true (OK files)) ->
    plain_segments ps ->
    narrative this ps = OK n ->
    exists f,
      baseName n = "narratives/" ++ f
      /\ (In (mkFile "file" f) files ->
          f <> "README.md" ->
          exists result,
            availableNarratives w this = ([], OK result)
            /\ In (Js.join "/" ps) result).
Proof.
  intros w this files ps n Hc Hfetch Hps Hn.
  apply narrative_inv in Hn as (N & HN & ->).
  rewrite (narrative_of_CommunitySource _ Hc) in HN. injection HN as <-.
  set (r := Js.template (repoName this)).
  set (rest := match ps with
               | [] => ""
               | _ :: _ => "_" ++ String.concat "_" ps
               end).
  exists ((r ++ rest) ++ ".md"). split.
  - unfold baseName, Narrative_baseParts. cbn [nconstructor nsource npathParts].
    rewrite join_concat, concat_after_first. fold r rest.
    now rewrite !append_assoc.
  - intros Hin Hreadme. eexists. split.
    + unfold availableNarratives.
      rewrite (availableNarratives_of_CommunitySource _ Hc).
      unfold CommunitySource_availableNarratives.
      fold (CommunitySource_narratives_request this). rewrite Hfetch. reflexivity.
    + apply in_map_iff. exists (mkFile "file" ((r ++ rest) ++ ".md")). split.
      * cbn [file_name]. fold r.
        rewrite append_assoc, replace_own_prefix.
        rewrite <- (path_after_repoName Hps). fold rest.
        destruct ps as [|p ps]; [reflexivity|].
        subst rest. cbn [append Js.strip_leading_underscore].
        now rewrite replace_suffix_append, append_nil_r.
      * repeat (apply filter_In; split); cbn [file_name file_type].
        -- exact Hin.
        -- reflexivity.
        -- apply negb_true_iff, String.eqb_neq, Hreadme.
        -- apply endsWith_append.
        -- fold r. unfold Js.startsWith. rewrite append_assoc. apply prefix_append_self.
Qed.

Lemma CommunityNarrative_is_enumerated_witness :
  exists result,
    availableNarratives
      (github_world (OK (mkResponse true
         (OK [mkFile "file" "README.md"; mkFile "file" "ncov_sit-rep_2020.md"]))))
      ncov
    = ([], OK result)
    /\ In "sit-rep/2020" result.
Proof.
  destruct (@CommunityNarrative_is_enumerated
              (github_world (OK (mkResponse true
                 (OK [mkFile "file" "README.md"; mkFile "file" "ncov_sit-rep_2020.md"]))))
              ncov [mkFile "file" "README.md"; mkFile "file" "ncov_sit-rep_2020.md"]
              ["sit-rep"; "2020"] (mkNarrative CommunityNarrative ncov ["sit-rep"; "2020"]))
    as (f & Hname & Hlisted).
  - apply extends_refl.
  - reflexivity.
  - repeat constructor.
  - reflexivity.
  - assert (f = "ncov_sit-rep_2020.md") as -> by (now injection Hname).
    apply Hlisted; [simpl; tauto | discriminate].
Defined.

(** X8.  When the contents API answers the listing of the narratives
    repository with the entries [files], [availableNarratives()] of a core
    source resolves without a warning; a path is in the result exactly when a
    regular file [stem.md] other than [README.md] is listed and the path is
    the stem with every underscore turned into a slash.  In particular the
    result never holds [README]. *)
Theorem CoreSource_availableNarratives_spec :
  forall (w : World) (this : SourceObj) (files : list GitHubFile),
    extends (sconstructor this) CoreSource ->
    fetch w (CoreSource_narratives_request this) = OK (mkResponse true (OK files)) ->
    exists result,
      availableNarratives w this = ([], OK result)
      /\ (forall p,
            In p result <->
            exists stem,
              In (mkFile "file" (stem ++ ".md")) files
              /\ stem <> "README"
              /\ p = replace_char "_" "/" stem)
      /\ ~ In "README" result.
Proof.
  intros w this files Hc Hfetch.
  eexists. split; [|split].
  - unfold availableNarratives.
    rewrite (availableNarratives_of_CoreSource _ Hc).
    unfold CoreSource_availableNarratives.
    fold (CoreSource_narratives_request this). rewrite Hfetch. reflexivity.
  - intros p. rewrite in_map_iff. split.
    + intros ([type name] & <- & H). cbn [file_name].
      repeat (apply filter_In in H as [H ?]). cbn [file_name file_type] in *.
      match goal with
      | T : String.eqb type _ = true, E : Js.endsWith name _ = true,
        R : negb _ = true |- _ =>
          apply String.eqb_eq in T; subst type;
          apply endsWith_iff in E as (stem & ->);
          apply negb_true_iff, String.eqb_neq in R;
          rename R into Hreadme
      end.
      exists stem. split; [exact H|]. split.
      * intros ->. now apply Hreadme.
      * now rewrite replace_suffix_append, append_nil_r, join_split_replace_char.
    + intros (stem & Hin & Hstem & ->).
      exists (mkFile "file" (stem ++ ".md")). cbn [file_name]. split.
      * now rewrite replace_suffix_append, append_nil_r, join_split_replace_char.
      * repeat (apply filter_In; split); cbn [file_name file_type].
        -- exact Hin.
        -- reflexivity.
        -- apply negb_true_iff, String.eqb_neq. intros E.
           apply Hstem. now apply (append_inj_l stem "README" ".md").
        -- apply endsWith_append.
  - rewrite in_map_iff. intros ([type name] & E & H). cbn [file_name] in E.
    repeat (apply filter_In in H as [H ?]). cbn [file_name file_type] in *.
    match goal with
    | F : Js.endsWith name _ = true, R : negb _ = true |- _ =>
        apply endsWith_iff in F as (stem & ->);
        apply negb_true_iff, String.eqb_neq in R;
        rename R into Hreadme
    end.
    rewrite replace_suffix_append, append_nil_r, join_split_replace_char in E.
    apply replace_char_inv in E; [|reflexivity].
    subst stem. now apply Hreadme.
Qed.

Lemma CoreSource_availableNarratives_spec_witness :
  exists result,
    availableNarratives
      (github_world (OK (mkResponse true
         (OK [mkFile "file" "README.md"; mkFile "file" "ncov_sit-rep_en_2020-03-05.md";
              mkFile "dir" "archive.md"]))))
      core
    = ([], OK result)
    /\ In "ncov/sit-rep/en/2020-03-05" result
    /\ ~ In "README" result.
Proof.
  destruct (@CoreSource_availableNarratives_spec
              (github_world (OK (mkResponse true
                 (OK [mkFile "file" "README.md"; mkFile "file" "ncov_sit-rep_en_2020-03-05.md";
                      mkFile "dir" "archive.md"]))))
              core
              [mkFile "file" "README.md"; mkFile "file" "ncov_sit-rep_en_2020-03-05.md";
               mkFile "dir" "archive.md"])
    as (result & Hresult & Hspec & Hreadme).
  - apply extends_refl.
  - reflexivity.
  - exists result. split; [exact Hresult|]. split; [|exact Hreadme].
    apply Hspec. exists "ncov_sit-rep_en_2020-03-05".
    split; [simpl; tauto|]. split; [discriminate | reflexivity].
Defined.

(** ** Construction of sources and handles *)

Lemma constructor_of_other_sources (c : SourceClass) :
  ~ extends c CommunitySource ->
  lookup own_constructor (prototype_chain c) = own_constructor Source.
Proof.
  unfold extends.
  induction c; simpl; intros H; try reflexivity; try tauto.
Qed.

(** X9.  [new C(owner, repoName)] for a community source class succeeds
    exactly when both arguments are non-empty strings, and then stores them;
    a missing owner is reported before a missing repository name.  Every
    other source class ignores the arguments and is always constructed. *)
Theorem source_construction_spec :
  forall (c : SourceClass) (o r : option string),
    (extends c CommunitySource ->
     (forall this,
         new c o r = OK this <->
         exists o' r',
           o = Some o' /\ o' <> "" /\ r = Some r' /\ r' <> ""
           /\ this = mkSource c (Some o') (Some r'))
     /\ ((o = None \/ o = Some "") ->
         new c o r
         = Throw (JsError ("Cannot construct a " ++ class_name c ++ " without an owner")))
     /\ (forall o', o = Some o' -> o' <> "" -> (r = None \/ r = Some "") ->
         new c o r
         = Throw (JsError ("Cannot construct a " ++ class_name c ++ " without an repoName"))))
    /\ (~ extends c CommunitySource -> new c o r = OK (mkSource c None None)).
Proof.
  intros c o r. split.
  - intros Hc. unfold new.
    rewrite (constructor_of_CommunitySource c Hc). cbn [own_constructor].
    split; [|split].
    + intros this. split.
      * destruct o as [o'|]; cbn [Js.falsy]; [|discriminate].
        destruct (String.eqb_spec o' "") as [|Ho]; [discriminate|].
        destruct r as [r'|]; cbn [Js.falsy]; [|discriminate].
        destruct (String.eqb_spec r' "") as [|Hr]; [discriminate|].
        intros [= <-]. now exists o', r'.
      * intros (o' & r' & -> & Ho & -> & Hr & ->). cbn [Js.falsy].
        apply String.eqb_neq in Ho, Hr. now rewrite Ho, Hr.
    + intros [->| ->]; reflexivity.
    + intros o' -> Ho Hr. cbn [Js.falsy].
      apply String.eqb_neq in Ho. rewrite Ho.
      destruct Hr as [->| ->]; reflexivity.
  - intros Hc. unfold new.
    now rewrite (constructor_of_other_sources c Hc).
Qed.

Lemma source_construction_spec_witness :
  new CommunitySource (Some "blab") (Some "ebola") = OK (mkSource CommunitySource (Some "blab") (Some "ebola"))
  /\ new SeattleFluSource (Some "blab") None = OK (mkSource SeattleFluSource None None).
Proof.
  split.
  - apply (proj1 (source_construction_spec CommunitySource (Some "blab") (Some "ebola"))
             (extends_refl CommunitySource)).
    exists "blab", "ebola". repeat split; discriminate.
  - apply (proj2 (source_construction_spec SeattleFluSource (Some "blab") None)).
    unfold extends. simpl. intuition discriminate.
Defined.

Lemma dataset_declared (c : SourceClass) :
  exists C, lookup own_dataset (prototype_chain c) = Some C.
Proof.
  destruct (lookup own_dataset (prototype_chain c)) as [C|] eqn:E.
  - now exists C.
  - exfalso. revert E. now apply lookup_declared_by_Source.
Qed.

(** X10.  The [dataset] factory fails, with the no-dataset-path error, exactly
    for an empty list of path segments on a source that is not a community
    source.  In every other case it returns a handle that holds the source
    and the path segments it was given. *)
Theorem dataset_factory_spec :
  forall (this : SourceObj) (ps : list string),
    (dataset this ps = Throw NoDatasetPathError <->
     ps = [] /\ ~ extends (sconstructor this) CommunitySource)
    /\ ((ps <> [] \/ extends (sconstructor this) CommunitySource) ->
        exists d, dataset this ps = OK d /\ dsource d = this /\ dpathParts d = ps).
Proof.
  intros this ps.
  destruct (dataset_declared (sconstructor this)) as (C & HC).
  pose proof (dataset_of_CommunitySource (sconstructor this)) as Hcommunity.
  rewrite HC in Hcommunity.
  unfold dataset, new_Dataset, Dataset_baseParts. rewrite HC.
  cbn [dconstructor dsource dpathParts].
  destruct C.
  - assert (~ extends (sconstructor this) CommunitySource) as Hn
      by (intros H; apply Hcommunity in H; discriminate).
    destruct ps as [|p ps]; simpl; split.
    + tauto.
    + intros [H|H]; [now contradiction H | contradiction].
    + split; [discriminate | intros [E _]; discriminate E].
    + intros _. eexists. repeat split.
  - assert (extends (sconstructor this) CommunitySource) as Hy
      by (now apply Hcommunity).
    simpl. split.
    + split; [discriminate | tauto].
    + intros _. eexists. repeat split.
  - assert (~ extends (sconstructor this) CommunitySource) as Hn
      by (intros H; apply Hcommunity in H; discriminate).
    destruct ps as [|p ps]; simpl; split.
    + tauto.
    + intros [H|H]; [now contradiction H | contradiction].
    + split; [discriminate | intros [E _]; discriminate E].
    + intros _. eexists. repeat split.
Qed.

Lemma dataset_factory_spec_witness :
  dataset seattleflu [] = Throw NoDatasetPathError
  /\ exists d, dataset ncov [] = OK d /\ dsource d = ncov /\ dpathParts d = [].
Proof.
  split.
  - apply (proj1 (dataset_factory_spec seattleflu [])).
    split; [reflexivity|]. unfold extends. simpl. intuition discriminate.
  - apply (proj2 (dataset_factory_spec ncov [])).
    right. apply extends_refl.
Defined.

Lemma concat_snoc (l : list string) (v : string) :
  l <> [] -> String.concat "_" (l ++ [v]) = String.concat "_" l ++ "_" ++ v.
Proof.
  induction l as [|x l IH]; [contradiction|]. intros _.
  destruct l as [|y l]; [reflexivity|].
  change ((x :: y :: l) ++ [v])%list with (x :: ((y :: l) ++ [v]))%list.
  rewrite (@concat_cons "_" x ((y :: l) ++ [v])%list) by (simpl; discriminate).
  rewrite IH by discriminate.
  rewrite (@concat_cons "_" x (y :: l)) by discriminate.
  now rewrite !append_assoc.
Qed.

(** X11.  File names do not tell a sidecar from a dataset: for a handle built
    by a source from the segments [ps] and a variant [v] other than [main],
    the same source builds a handle from [ps] followed by [v], and the main
    file of that handle is the [v] file of the first. *)
Theorem sidecar_name_is_a_main_name :
  forall (this : SourceObj) (ps : list string) (v : string) (d : DatasetObj),
    dataset this ps = OK d ->
    v <> "main" ->
    exists d',
      dataset this (ps ++ [v]) = OK d'
      /\ baseNameFor d' "main" = baseNameFor d v.
Proof.
  intros this ps v d Hd Hv.
  apply dataset_inv in Hd as (C & HC & -> & Hparts).
  exists (mkDataset C this (ps ++ [v])).
  assert (Dataset_baseParts (mkDataset C this (ps ++ [v]))
          = (Dataset_baseParts (mkDataset C this ps) ++ [v])%list) as Hsnoc
    by (destruct C; reflexivity).
  split.
  - unfold dataset, new_Dataset. rewrite HC, Hsnoc.
    destruct (Dataset_baseParts (mkDataset C this ps)); [contradiction | reflexivity].
  - unfold baseNameFor. rewrite Hsnoc, !join_concat.
    apply String.eqb_neq in Hv. rewrite Hv. cbn [String.eqb Ascii.eqb Bool.eqb].
    rewrite concat_snoc by exact Hparts.
    now rewrite !append_assoc.
Qed.

Lemma sidecar_name_is_a_main_name_witness :
  exists d',
    dataset core ["zika"; "tree"] = OK d'
    /\ baseNameFor d' "main" = baseNameFor (mkDataset Dataset core ["zika"]) "tree".
Proof.
  apply (@sidecar_name_is_a_main_name core ["zika"] "tree" (mkDataset Dataset core ["zika"])).
  - reflexivity.
  - discriminate.
Defined.

(** ** Visibility and URLs of the sources that are not access-controlled *)

Lemma visibleToUser_of_public_sources (c : SourceClass) :
  no_visibleToUser_override c ->
  ~ extends c PrivateS3Source ->
  lookup own_visibleToUser (prototype_chain c) = own_visibleToUser Source.
Proof.
  unfold extends.
  induction c as [| | | | | | | | | |p IH body]; simpl;
    intros Hno Hpublic; try reflexivity; try tauto.
  destruct Hno as [-> Hno]. simpl. apply IH; tauto.
Qed.

(** X12.  A source outside the access-controlled family, no class of which
    declares a [visibleToUser] of its own, is visible to every user and to
    the absent user. *)
Theorem public_sources_are_visible :
  forall (this : SourceObj) (user : option User),
    no_visibleToUser_override (sconstructor this) ->
    ~ extends (sconstructor this) PrivateS3Source ->
    visibleToUser this user = OK true.
Proof.
  intros this user Hno Hpublic.
  unfold visibleToUser, static_visibleToUser.
  now rewrite (visibleToUser_of_public_sources _ Hno Hpublic).
Qed.

Lemma public_sources_are_visible_witness :
  visibleToUser
    (mkSource (Subclass PublicGroupSource (mkBody "BlabSource" (Some "blab") None None))
       None None)
    None
  = OK true.
Proof.
  apply public_sources_are_visible.
  - simpl. tauto.
  - unfold extends. simpl. intuition discriminate.
Defined.

(** X13.  For a source outside the access-controlled family, [urlFor(v)] of
    its dataset handle is the base name resolved against the source's
    [baseUrl], or the failure of [baseUrl]; neither it nor [url()] of its
    narrative handle is ever a signed URL. *)
Theorem public_handles_are_not_signed :
  forall (this : SourceObj) (ps : list string),
    ~ extends (sconstructor this) PrivateS3Source ->
    (forall d v,
        dataset this ps = OK d ->
        urlFor d v
        = bind (baseUrl this) (fun base => OK (URL_toString (baseNameFor d v) base))
        /\ forall operation b key, urlFor d v <> OK (S3_getSignedUrl operation b key))
    /\ (forall n,
        narrative this ps = OK n ->
        forall operation b key, url n <> OK (S3_getSignedUrl operation b key)).
Proof.
  intros this ps Hpublic. split.
  - intros d v Hd.
    apply dataset_inv in Hd as (C & HC & -> & _).
    assert (C <> PrivateS3Dataset) as HC'.
    { intros ->. now apply Hpublic, dataset_of_PrivateS3Source. }
    unfold urlFor. cbn [dconstructor dsource].
    destruct C; try contradiction;
      (split; [reflexivity|]); intros operation b key;
      destruct (baseUrl this); simpl; discriminate.
  - intros n Hn operation b key.
    apply narrative_inv in Hn as (N & HN & ->).
    assert (N <> PrivateS3Narrative) as HN'.
    { intros ->. now apply Hpublic, narrative_of_PrivateS3Source. }
    unfold url. cbn [nconstructor nsource].
    destruct N; try contradiction; try discriminate;
      destruct (baseUrl this); simpl; discriminate.
Qed.

Lemma public_handles_are_not_signed_witness :
  urlFor (mkDataset Dataset seattleflu ["flu"]) "meta"
  = OK (URL_toString "flu_meta.json" "https://nextstrain-seattleflu.s3.amazonaws.com").
Proof.
  assert (~ extends (sconstructor seattleflu) PrivateS3Source) as Hpublic
    by (unfold extends; simpl; intuition discriminate).
  assert (dataset seattleflu ["flu"] = OK (mkDataset Dataset seattleflu ["flu"])) as Hd
    by reflexivity.
  destruct (public_handles_are_not_signed seattleflu ["flu"] Hpublic) as (Hdataset & _).
  destruct (Hdataset _ "meta" Hd) as (Hurl & _).
  rewrite Hurl. reflexivity.
Defined.

Lemma CoreSource_members (c : SourceClass) :
  extends c CoreSource ->
  lookup own_narrative (prototype_chain c) = Some CoreNarrative
  /\ lookup own_repo (prototype_chain c) = own_repo CoreSource
  /\ ((extends c CoreStagingSource
       /\ lookup own_branch (prototype_chain c) = Some "staging")
      \/ (~ extends c CoreStagingSource
          /\ lookup own_branch (prototype_chain c) = Some "master")).
Proof.
  unfold extends.
  induction c as [| | | | | | | | | |p IH body]; simpl; intros H;
    intuition discriminate.
Qed.

(** X14.  The narrative handle of a core source does not use the source's
    [baseUrl]: its [url()] is the file [<segments joined by _>.md] resolved
    against the raw content of the narratives repository, on the [staging]
    branch for the staging source and its descendants and on [master]
    otherwise. *)
Theorem CoreNarrative_url_spec :
  forall (this : SourceObj) (ps : list string) (n : NarrativeObj),
    extends (sconstructor this) CoreSource ->
    narrative this ps = OK n ->
    exists br,
      branch this = Some br
      /\ (extends (sconstructor this) CoreStagingSource -> br = "staging")
      /\ (~ extends (sconstructor this) CoreStagingSource -> br = "master")
      /\ url n
         = OK (URL_toString (String.concat "_" ps ++ ".md")
                 ("https://raw.githubusercontent.com/nextstrain/narratives/" ++ br ++ "/")).
Proof.
  intros this ps n Hc Hn.
  apply narrative_inv in Hn as (N & HN & ->).
  destruct (CoreSource_members _ Hc) as (Hnarrative & Hrepo & Hbranch).
  rewrite Hnarrative in HN. injection HN as <-.
  assert (forall br, branch this = Some br ->
            url (mkNarrative CoreNarrative this ps)
            = OK (URL_toString (String.concat "_" ps ++ ".md")
                    ("https://raw.githubusercontent.com/nextstrain/narratives/" ++ br ++ "/")))
    as Hurl.
  { intros br Hbr. unfold url, baseName, Narrative_baseParts, repo.
    cbn [nconstructor nsource npathParts].
    now rewrite Hrepo, Hbr, join_concat. }
  destruct Hbranch as [[Hs Hb]|[Hs Hb]].
  - exists "staging". fold (branch this) in Hb.
    split; [exact Hb|]. split; [reflexivity|]. split; [contradiction|]. now apply Hurl.
  - exists "master". fold (branch this) in Hb.
    split; [exact Hb|]. split; [contradiction|]. split; [reflexivity|]. now apply Hurl.
Qed.

Lemma CoreNarrative_url_spec_witness :
  url (mkNarrative CoreNarrative (mkSource CoreStagingSource None None) ["ncov"; "sit-rep"])
  = OK (URL_toString "ncov_sit-rep.md"
          "https://raw.githubusercontent.com/nextstrain/narratives/staging/").
Proof.
  destruct (@CoreNarrative_url_spec (mkSource CoreStagingSource None None) ["ncov"; "sit-rep"]
              (mkNarrative CoreNarrative (mkSource CoreStagingSource None None)
                 ["ncov"; "sit-rep"]))
    as (br & _ & Hstaging & _ & Hurl).
  - unfold extends. simpl. tauto.
  - reflexivity.
  - rewrite Hurl, Hstaging; [reflexivity|]. apply extends_refl.
Defined.

Lemma CommunitySource_members (c : SourceClass) :
  extends c CommunitySource ->
  lookup own_baseUrl (prototype_chain c) = own_baseUrl CommunitySource
  /\ lookup own_repo (prototype_chain c) = own_repo CommunitySource
  /\ lookup own_branch (prototype_chain c) = Some "master".
Proof.
  unfold extends.
  induction c as [| | | | | | | | | |p IH body]; simpl; intros H;
    intuition discriminate.
Qed.

(** X15.  A community source constructed for the owner [o] and the repository
    [r] resolves its files against the raw content of the [master] branch of
    [o/r] on GitHub: that is its [baseUrl], the dataset handle of any segments
    is built and its [urlFor(v)] resolves the base name against it, and so
    does [url()] of its narrative handle. *)
Theorem CommunitySource_urls :
  forall (c : SourceClass) (o r : string) (ps : list string) (v : string)
         (this : SourceObj),
    extends c CommunitySource ->
    new c (Some o) (Some r) = OK this ->
    let base := "https://raw.githubusercontent.com/" ++ o ++ "/" ++ r ++ "/master/" in
    baseUrl this = OK base
    /\ (exists d,
           dataset this ps = OK d
           /\ urlFor d v = OK (URL_toString (baseNameFor d v) base))
    /\ (exists n,
           narrative this ps = OK n
           /\ url n = OK (URL_toString (baseName n) base)).
Proof.
  intros c o r ps v this Hc Hnew base.
  unfold new in Hnew. rewrite (constructor_of_CommunitySource c Hc) in Hnew.
  cbn [own_constructor] in Hnew.
  destruct (Js.falsy (Some o)); [discriminate|].
  destruct (Js.falsy (Some r)); [discriminate|].
  injection Hnew as <-.
  destruct (CommunitySource_members c Hc) as (Hbase & Hrepo & Hbranch).
  assert (baseUrl (mkSource c (Some o) (Some r)) = OK base) as Hurl.
  { unfold baseUrl, repo, branch. cbn [sconstructor].
    rewrite Hbase. cbn [own_baseUrl]. unfold repo, branch. cbn [sconstructor].
    rewrite Hrepo, Hbranch. cbn [own_repo option_map owner repoName Js.template].
    unfold base. now rewrite !append_assoc. }
  split; [exact Hurl|]. split.
  - exists (mkDataset CommunityDataset (mkSource c (Some o) (Some r)) ps). split.
    + unfold dataset. cbn [sconstructor].
      now rewrite (proj2 (dataset_of_CommunitySource c) Hc).
    + unfold urlFor. cbn [dconstructor dsource]. now rewrite Hurl.
  - exists (mkNarrative CommunityNarrative (mkSource c (Some o) (Some r)) ps). split.
    + unfold narrative. cbn [sconstructor].
      now rewrite (narrative_of_CommunitySource c Hc).
    + unfold url. cbn [nconstructor nsource]. now rewrite Hurl.
Qed.

Lemma CommunitySource_urls_witness :
  baseUrl ncov = OK "https://raw.githubusercontent.com/nextstrain/ncov/master/".
Proof.
  apply (@CommunitySource_urls CommunitySource "nextstrain" "ncov" ["global"] "main" ncov).
  - apply extends_refl.
  - reflexivity.
Defined.

Lemma group_source_members (c : SourceClass) :
  extends c PublicGroupSource \/ extends c PrivateGroupSource ->
  no_bucket_override c ->
  lookup own_bucket (prototype_chain c) = own_bucket PublicGroupSource
  /\ lookup own_baseUrl (prototype_chain c) = own_baseUrl S3Source.
Proof.
  unfold extends.
  induction c as [| | | | | | | | | |p IH body]; simpl; intros H Hno;
    try solve [ intuition discriminate ].
  destruct Hno as [-> Hno]. simpl. apply IH; [|exact Hno].
  destruct H as [[E|H]|[E|H]]; try discriminate E; tauto.
Qed.

(** X16.  A group source, public or private, whose classes leave the [bucket]
    getter of the group sources in place, is stored in the bucket
    [nextstrain-<name>] of its own name and served from
    [https://nextstrain-<name>.s3.amazonaws.com]; without a name, both the
    bucket and the base URL fail as the name does. *)
Theorem group_bucket_follows_name :
  forall (this : SourceObj),
    extends (sconstructor this) PublicGroupSource
    \/ extends (sconstructor this) PrivateGroupSource ->
    no_bucket_override (sconstructor this) ->
    bucket this = bind (name this) (fun n => OK (Some ("nextstrain-" ++ n)))
    /\ baseUrl this
       = bind (name this) (fun n => OK ("https://nextstrain-" ++ n ++ ".s3.amazonaws.com")).
Proof.
  intros this Hc Hno.
  destruct (group_source_members _ Hc Hno) as (Hbucket & Hbase).
  assert (bucket this = bind (name this) (fun n => OK (Some ("nextstrain-" ++ n))))
    as Hb.
  { unfold bucket. rewrite Hbucket. cbn [own_bucket].
    now destruct (name this). }
  split; [exact Hb|].
  unfold baseUrl. rewrite Hbase. cbn [own_baseUrl]. rewrite Hb.
  now destruct (name this).
Qed.

Lemma group_bucket_follows_name_witness :
  bucket seattleflu = OK (Some "nextstrain-seattleflu")
  /\ baseUrl (mkSource PrivateGroupSource None None)
     = Throw (InvalidSourceImplementation "_name() must be implemented by subclasses").
Proof.
  split.
  - apply (@group_bucket_follows_name seattleflu).
    + left. unfold extends. simpl. tauto.
    + exact I.
  - apply (@group_bucket_follows_name (mkSource PrivateGroupSource None None)).
    + right. apply extends_refl.
    + exact I.
Defined.

(** ** The exported map *)

(** X17.  The module exports a map that is built without an error and holds
    the registered classes under their names: looking up a key returns a
    class exactly when that class is registered and the key is its [_name].
    No registered class hides another. *)
Theorem sourceMap_spec :
  exists m,
    sourceMap = OK m
    /\ forall (k : string) (c : SourceClass),
         Map_get m k = Some c <-> In c sources /\ _name c = OK k.
Proof.
  exists [("core", CoreSource); ("staging", CoreStagingSource);
          ("community", CommunitySource); ("inrb-drc", InrbDrcSource);
          ("seattleflu", SeattleFluSource)].
  split; [reflexivity|].
  intros k c. cbn -[String.eqb]. split.
  - repeat match goal with
           | |- context [String.eqb ?a k] =>
               destruct (String.eqb_spec a k) as [<-|?]
           end;
      intros E; try discriminate E; injection E as <-; tauto.
  - intros [Hin Hname].
    repeat (destruct Hin as [<-|Hin]);
      try contradiction;
      cbv in Hname; injection Hname as <-; reflexivity.
Qed.

(** ** Source information *)

Lemma getInfo_members (c : SourceClass) :
  (extends c CoreSource -> lookup own_getInfo (prototype_chain c) = None)
  /\ (extends c CommunitySource ->
      lookup own_getInfo (prototype_chain c) = Some CommunitySource_getInfo)
  /\ (extends c S3Source ->
      lookup own_getInfo (prototype_chain c) = Some S3Source_getInfo).
Proof.
  unfold extends.
  induction c as [| | | | | | | | | |p IH body]; simpl;
    intuition discriminate.
Qed.

(** X18.  [getInfo] exists for community and object-storage sources only.
    Calling it on a core source is a type error.  On a community source it
    resolves, with the avatar of the owner.  On an object-storage source it
    resolves to the page of the bucket when the source has one, and otherwise
    rejects with the failure of the [bucket] getter, which the [catch] block
    itself raises. *)
Theorem getInfo_spec :
  forall (this : SourceObj),
    (extends (sconstructor this) CoreSource ->
     getInfo this = ([], not_a_function "getInfo"))
    /\ (extends (sconstructor this) CommunitySource ->
        exists info,
          getInfo this = ([], OK info)
          /\ showDatasets info = true /\ showNarratives info = true
          /\ avatar info
             = Some ("https://github.com/" ++ Js.template (owner this) ++ ".png?size=200"))
    /\ (extends (sconstructor this) S3Source ->
        (forall e, bucket this = Throw e -> getInfo this = ([], Throw e))
        /\ (forall b, bucket this = OK b ->
            exists info,
              getInfo this = ([], OK info)
              /\ title info = "Nextstrain group page for " ++ Js.template b
              /\ showDatasets info = true /\ showNarratives info = true
              /\ avatar info = None)).
Proof.
  intros this.
  destruct (getInfo_members (sconstructor this)) as (Hcore & Hcommunity & Hs3).
  unfold getInfo. split; [|split].
  - intros Hc. now rewrite (Hcore Hc).
  - intros Hc. rewrite (Hcommunity Hc). eexists. split; [reflexivity|]. repeat split.
  - intros Hc. rewrite (Hs3 Hc). unfold S3Source_getInfo. split.
    + intros e He. cbn. now rewrite He.
    + intros b Hb. cbn. rewrite Hb. eexists. split; [reflexivity|]. repeat split.
Qed.

Lemma getInfo_spec_witness :
  getInfo (mkSource PrivateS3Source None None)
  = ([], Throw (InvalidSourceImplementation "bucket() must be implemented by subclasses")).
Proof.
  destruct (getInfo_spec (mkSource PrivateS3Source None None)) as (_ & _ & Hs3).
  apply Hs3.
  - unfold extends. simpl. tauto.
  - reflexivity.
Defined.

(** ** Remaining enumerations *)

Lemma availableDatasets_of_CoreSource (c : SourceClass) :
  extends c CoreSource ->
  lookup own_availableDatasets (prototype_chain c) = Some CoreSource_availableDatasets.
Proof.
  hierarchy c.
Qed.

(** X19.  [availableDatasets()] of a core source makes no upstream call;
    whatever [fetch] and the buckets answer, it never warns.  While nothing
    has been assigned to [global.availableDatasets] it fails with a type
    error.  Once the global is assigned it returns the value read under the
    source's name when that value is truthy, and the empty array otherwise:
    the stored array when there is one, the empty array when there is
    nothing. *)
Theorem CoreSource_availableDatasets_spec :
  forall (w : World) (this : SourceObj),
    extends (sconstructor this) CoreSource ->
    exists n,
      name this = OK n
      /\ (global_availableDatasets w = None ->
          availableDatasets w this
          = ([], Throw (JsError "TypeError: Cannot read properties of undefined")))
      /\ (forall get,
            global_availableDatasets w = Some get ->
            availableDatasets w this
            = ([], OK (if truthy (get n) then get n else JsArray []))
            /\ (forall datasets,
                  get n = JsArray datasets ->
                  availableDatasets w this = ([], OK (JsArray datasets)))
            /\ (get n = JsUndefined ->
                availableDatasets w this = ([], OK (JsArray [])))).
Proof.
  intros w this Hc.
  destruct (name_of_GitHub_source (sconstructor this) (or_introl Hc)) as (n & Hn).
  exists n. split; [exact Hn|].
  unfold availableDatasets. rewrite (availableDatasets_of_CoreSource _ Hc).
  unfold CoreSource_availableDatasets, name. rewrite Hn. cbn [lift abind].
  split.
  - intros ->. reflexivity.
  - intros get ->. cbn. split; [reflexivity|]. split.
    + intros datasets ->. reflexivity.
    + intros ->. reflexivity.
Qed.

Lemma CoreSource_availableDatasets_spec_witness :
  availableDatasets
    (mkWorld (fun _ => Throw (UpstreamError "fetch"))
       (fun _ => Throw (UpstreamError "AccessDenied"))
       (Some (fun k => if String.eqb k "staging"
                       then JsArray ["zika"; "flu/seasonal/h3n2"]
                       else JsUndefined)))
    (mkSource CoreStagingSource None None)
  = ([], OK (JsArray ["zika"; "flu/seasonal/h3n2"]))
  /\ availableDatasets failing_bucket_world core
     = ([], Throw (JsError "TypeError: Cannot read properties of undefined")).
Proof.
  split.
  - destruct (@CoreSource_availableDatasets_spec
                (mkWorld (fun _ => Throw (UpstreamError "fetch"))
                   (fun _ => Throw (UpstreamError "AccessDenied"))
                   (Some (fun k => if String.eqb k "staging"
                                   then JsArray ["zika"; "flu/seasonal/h3n2"]
                                   else JsUndefined)))
                (mkSource CoreStagingSource None None))
      as (n & Hn & _ & Hassigned).
    + unfold extends. simpl. tauto.
    + injection Hn as <-.
      destruct (Hassigned _ eq_refl) as (_ & Harray & _).
      apply Harray. reflexivity.
  - destruct (@CoreSource_availableDatasets_spec failing_bucket_world core)
      as (n & _ & Hunassigned & _).
    + apply extends_refl.
    + apply Hunassigned. reflexivity.
Defined.

(** X20.  A file name is taken for a sidecar file exactly when it ends in an
    underscore, one of the five sidecar suffixes, and [.json]. *)
Theorem notSidecar_spec :
  forall filename : string,
    notSidecar filename = false <->
    exists stem suffix,
      In suffix ["meta"; "tree"; "root-sequence"; "seq"; "tip-frequencies"]
      /\ filename = stem ++ "_" ++ suffix ++ ".json".
Proof.
  intros filename. unfold notSidecar.
  rewrite negb_false_iff, existsb_exists. split.
  - intros (suffix & Hin & Hends).
    apply endsWith_iff in Hends as (stem & ->).
    now exists stem, suffix.
  - intros (stem & suffix & Hin & ->).
    exists suffix. split; [exact Hin | apply endsWith_append].
Qed.

Lemma notSidecar_spec_witness :
  notSidecar "ncov_global_tip-frequencies.json" = false.
Proof.
  apply notSidecar_spec.
  exists "ncov_global", "tip-frequencies". split; [simpl; tauto | reflexivity].
Defined.
